(** * Blockly.Procedures: utility functions for handling procedures

    A shallow embedding of [Blockly.Procedures] (core/procedures.js of the
    block editor) and the properties of its registry, name disambiguation,
    rename, mutation propagation and deletion guard.

    Conventions of the embedding:
    - a JavaScript string is a [string]: one character per code unit, code
      units in the range 0..255;
    - a JavaScript exception is the [Throw] outcome of [result]; stateful
      functions thread an explicit [State] and keep the writes made before an
      exception;
    - the [while] loop of [findLegalName] takes fuel; [None] means that the
      fuel ran out before the loop left. *)

From Stdlib Require Import String Ascii List Bool Arith ZArith NArith Lia.
From Stdlib Require Import DecimalString Sorted Permutation OrdersEx.
From Stdlib Require Import RelationClasses DecimalN.
Import ListNotations.

Set Implicit Arguments.
Set Warnings "-register-all".
Local Open Scope string_scope.
Local Open Scope list_scope.

(* ================================================================== *)
(** ** JavaScript built-ins used by the source *)
(* ================================================================== *)

Module JS.

(** Outcome of a call that may raise a TypeError (property access on
    [null] or [undefined]). *)
Inductive result (A : Type) : Type :=
| Ok (a : A)
| Throw.
Arguments Ok {A} a.
Arguments Throw {A}.

Definition bind {A B} (r : result A) (k : A -> result B) : result B :=
  match r with
  | Ok a => k a
  | Throw => Throw
  end.

Definition code (c : ascii) : N := N_of_ascii c.

(** The class [[\s\xa0]] on code units 0..255: TAB, LF, VT, FF, CR, SPACE
    and NBSP. *)
Definition isSpace (c : ascii) : bool :=
  let n := code c in
  ((9 <=? n) && (n <=? 13) || (n =? 32) || (n =? 160))%N.

(** The class [\d]. *)
Definition isDigit (c : ascii) : bool :=
  let n := code c in ((48 <=? n) && (n <=? 57))%N.

(** Characters that [.] does not match: LF and CR. *)
Definition isLineTerminator (c : ascii) : bool :=
  let n := code c in ((n =? 10) || (n =? 13))%N.

(** [String.prototype.toLowerCase] on code units 0..255: A-Z and the
    capital letters 0xC0..0xDE (0xD7, the multiplication sign, apart) move
    up by 32. *)
Definition lowerChar (c : ascii) : ascii :=
  let n := code c in
  if ((65 <=? n) && (n <=? 90)
      || (192 <=? n) && (n <=? 222) && negb (n =? 215))%N
  then ascii_of_N (n + 32)
  else c.

Fixpoint toLowerCase (s : string) : string :=
  match s with
  | EmptyString => EmptyString
  | String c s' => String (lowerChar c) (toLowerCase s')
  end.

(** [s.replace(/^[\s\xa0]+/, '')] *)
Fixpoint trimStart (s : string) : string :=
  match s with
  | EmptyString => EmptyString
  | String c s' => if isSpace c then trimStart s' else s
  end.

Fixpoint allSpace (s : string) : bool :=
  match s with
  | EmptyString => true
  | String c s' => isSpace c && allSpace s'
  end.

(** [s.replace(/[\s\xa0]+$/, '')] *)
Fixpoint trimEnd (s : string) : string :=
  match s with
  | EmptyString => EmptyString
  | String c s' => if allSpace s then EmptyString else String c (trimEnd s')
  end.

(** [s.replace(/^[\s\xa0]+|[\s\xa0]+$/g, '')] *)
Definition trim (s : string) : string := trimEnd (trimStart s).

Fixpoint allDigits (s : string) : bool :=
  match s with
  | EmptyString => true
  | String c s' => isDigit c && allDigits s'
  end.

(** [s.match(/^(.*?)(\d+)$/)]: the lazy group takes the shortest prefix
    without line terminators that leaves a non-empty run of digits up to
    the end of the string.  Returns the two groups. *)
Fixpoint matchTrailingDigits (s : string) : option (string * string) :=
  match s with
  | EmptyString => None
  | String c s' =>
      if allDigits s then Some (EmptyString, s)
      else if isLineTerminator c then None
      else match matchTrailingDigits s' with
           | Some (p, d) => Some (String c p, d)
           | None => None
           end
  end.

(** [parseInt(d, 10)] on a string of decimal digits.  The source computes
    on doubles, which are exact below 2^53; the model keeps every digit. *)
Definition parseInt (d : string) : N :=
  fold_left (fun acc c => (10 * acc + (code c - 48))%N)
            (list_ascii_of_string d) 0%N.

(** Conversion of a non-negative integer to its decimal string. *)
Definition numberToString (n : N) : string :=
  NilZero.string_of_uint (N.to_uint n).

(** [Array.prototype.sort(cmp)]: a stable sort; [x] goes before the first
    element that does not compare below it. *)
Section Sort.
Variable A : Type.
Variable cmp : A -> A -> Z.

Fixpoint insert (x : A) (l : list A) : list A :=
  match l with
  | [] => [x]
  | y :: l' => if (cmp x y <=? 0)%Z then x :: l else y :: insert x l'
  end.

Definition sort (l : list A) : list A := fold_right insert [] l.
End Sort.

End JS.

Import JS.

(* ================================================================== *)
(** ** The block graph (external collaborator) *)
(* ================================================================== *)

(** A procedure signature, the three-element array
    [[name, parameters, hasReturnValue]]. *)
Record ProcTuple : Type := mkTuple {
  tuple_name : string;
  tuple_params : list string;
  tuple_hasReturn : bool
}.

(** A block.  [getProcedureDef] is [None] when the block has no such
    method, [Some None] when the method answers [null], and
    [Some (Some t)] when it answers the tuple [t]; [renameProcedure] tells
    whether the block has that method; [getProcCode] is what the method
    answers, [None] for an absent identifier. *)
Inductive Block : Type := mkBlock {
  id : string;
  type : string;
  isInFlyout : bool;
  getProcedureDef : option (option ProcTuple);
  getProcCode : option string;
  renameProcedure : bool;
  childBlocks_ : list Block
}.

(** Object identity of blocks; the blocks of a workspace have pairwise
    distinct ids. *)
Definition sameBlock (a b : Block) : bool := String.eqb (id a) (id b).

(** [a == opt] for an optional block [opt]; [undefined] equals no block. *)
Definition isBlock (a : Block) (opt : option Block) : bool :=
  match opt with
  | Some b => sameBlock a b
  | None => false
  end.

(** Modelled from the spec: [block.getDescendants()], the block itself
    followed by the descendants of each child, child by child. *)
Fixpoint getDescendants (b : Block) : list Block :=
  b :: (fix descend (cs : list Block) : list Block :=
          match cs with
          | [] => []
          | c :: cs' => getDescendants c ++ descend cs'
          end) (childBlocks_ b).

Record Workspace : Type := mkWorkspace {
  topBlocks_ : list Block
}.

(** Modelled from the spec: [workspace.getTopBlocks()], the roots of the
    stacks in array order. *)
Definition getTopBlocks (ws : Workspace) : list Block := topBlocks_ ws.

Fixpoint zipLevels (l1 l2 : list (list Block)) : list (list Block) :=
  match l1, l2 with
  | [], _ => l2
  | _, [] => l1
  | a :: l1', b :: l2' => (a ++ b) :: zipLevels l1' l2'
  end.

(** The blocks of the tree under [b], depth by depth. *)
Fixpoint levels (b : Block) : list (list Block) :=
  [b] :: (fix below (cs : list Block) : list (list Block) :=
            match cs with
            | [] => []
            | c :: cs' => zipLevels (levels c) (below cs')
            end) (childBlocks_ b).

(** Modelled from the spec: [workspace.getAllBlocks()], every block of the
    workspace: the top blocks, then their children, then the children of
    those, and so on. *)
Definition getAllBlocks (ws : Workspace) : list Block :=
  concat (fold_right (fun b acc => zipLevels (levels b) acc) []
                     (getTopBlocks ws)).

(** Modelled from the spec: [Blockly.Names.equals], equality of names
    without regard to case. *)
Definition Names_equals (name1 name2 : string) : bool :=
  String.eqb (toLowerCase name1) (toLowerCase name2).

(** [tuple[i]] on the answer of [getProcedureDef()]: a TypeError on
    [null]. *)
Definition tupleIndex {A} (tuple : option ProcTuple) (field : ProcTuple -> A)
  : result A :=
  match tuple with
  | Some t => Ok (field t)
  | None => Throw
  end.

(** Truthiness of an object reference. *)
Definition truthy {A} (o : option A) : bool :=
  match o with
  | Some _ => true
  | None => false
  end.

(** Truthiness of an optional string: the empty string is falsy. *)
Definition truthyString (o : option string) : bool :=
  match o with
  | Some s => negb (String.eqb s "")
  | None => false
  end.

(* ================================================================== *)
(** ** Blockly.Procedures: the queries *)
(* ================================================================== *)

Section Registry.

(** [String.prototype.localeCompare], the collation of the host. *)
Variable localeCompare : string -> string -> Z.

Definition procTupleComparator_ (ta tb : ProcTuple) : Z :=
  localeCompare (toLowerCase (tuple_name ta)) (toLowerCase (tuple_name tb)).

(** The loop of [allProcedures], with the two arrays as accumulators. *)
Fixpoint allProcedures_loop (blocks : list Block)
         (proceduresReturn proceduresNoReturn : list ProcTuple)
  : result (list ProcTuple * list ProcTuple) :=
  match blocks with
  | [] => Ok (proceduresReturn, proceduresNoReturn)
  | b :: rest =>
      match getProcedureDef b with
      | Some tuple =>
          if truthy tuple then
            bind (tupleIndex tuple tuple_hasReturn) (fun hasReturn =>
            bind (tupleIndex tuple (fun t => t)) (fun t =>
              if hasReturn
              then allProcedures_loop rest (proceduresReturn ++ [t])
                                      proceduresNoReturn
              else allProcedures_loop rest proceduresReturn
                                      (proceduresNoReturn ++ [t])))
          else allProcedures_loop rest proceduresReturn proceduresNoReturn
      | None => allProcedures_loop rest proceduresReturn proceduresNoReturn
      end
  end.

Definition allProcedures (root : Workspace)
  : result (list ProcTuple * list ProcTuple) :=
  bind (allProcedures_loop (getAllBlocks root) [] []) (fun arrays =>
    let '(proceduresReturn, proceduresNoReturn) := arrays in
    Ok (sort procTupleComparator_ proceduresNoReturn,
        sort procTupleComparator_ proceduresReturn)).

End Registry.

Fixpoint isNameUsed_loop (name : string) (blocks : list Block)
         (opt_exclude : option Block) : result bool :=
  match blocks with
  | [] => Ok true
  | b :: rest =>
      if isBlock b opt_exclude then isNameUsed_loop name rest opt_exclude
      else match getProcedureDef b with
           | Some procName =>
               bind (tupleIndex procName tuple_name) (fun n =>
                 if Names_equals n name then Ok false
                 else isNameUsed_loop name rest opt_exclude)
           | None => isNameUsed_loop name rest opt_exclude
           end
  end.

Definition isNameUsed (name : string) (workspace : Workspace)
           (opt_exclude : option Block) : result bool :=
  isNameUsed_loop name (getAllBlocks workspace) opt_exclude.

Definition isLegalName_ (name : string) (workspace : Workspace)
           (opt_exclude : option Block) : result bool :=
  bind (isNameUsed name workspace opt_exclude) (fun used => Ok (negb used)).

(** One turn of the loop of [findLegalName]. *)
Definition nextName (name : string) : string :=
  match matchTrailingDigits name with
  | None => (name ++ "2")%string
  | Some (r1, r2) => (r1 ++ numberToString (parseInt r2 + 1))%string
  end.

Fixpoint findLegalName_loop (fuel : nat) (name : string)
         (workspace : Workspace) (block : Block) : option (result string) :=
  match fuel with
  | O => None
  | S fuel' =>
      match isLegalName_ name workspace (Some block) with
      | Throw => Some Throw
      | Ok true => Some (Ok name)
      | Ok false => findLegalName_loop fuel' (nextName name) workspace block
      end
  end.

(** [findLegalName(name, block)], with [workspace] for [block.workspace]. *)
Definition findLegalName (fuel : nat) (name : string) (block : Block)
           (workspace : Workspace) : option (result string) :=
  if isInFlyout block then Some (Ok name)
  else findLegalName_loop fuel name workspace block.

(** The first loop of [getCallers]: the stacks to investigate.
    [definitionRoot] is [None] when the argument is left out, and reading
    its [id] then raises. *)
Fixpoint getCallers_stacks (topBlocks : list Block)
         (definitionRoot : option Block) (allowRecursive : bool)
  : result (list Block) :=
  match topBlocks with
  | [] => Ok []
  | block :: rest =>
      match definitionRoot with
      | None => Throw
      | Some root =>
          bind (getCallers_stacks rest definitionRoot allowRecursive)
               (fun allBlocks =>
                  if String.eqb (id block) (id root) && negb allowRecursive
                  then Ok allBlocks
                  else Ok (getDescendants block ++ allBlocks))
      end
  end.

Definition isCallerOf (name : string) (block : Block) : bool :=
  String.eqb (type block) "procedures_callnoreturn"
  && (truthyString (getProcCode block)
      && match getProcCode block with
         | Some procCode => String.eqb procCode name
         | None => false
         end).

Definition getCallers (name : string) (ws : Workspace)
           (definitionRoot : option Block) (allowRecursive : bool)
  : result (list Block) :=
  bind (getCallers_stacks (getTopBlocks ws) definitionRoot allowRecursive)
       (fun allBlocks => Ok (filter (isCallerOf name) allBlocks)).

Fixpoint getDefinition_loop (name : string) (blocks : list Block)
  : result (option Block) :=
  match blocks with
  | [] => Ok None
  | b :: rest =>
      match getProcedureDef b with
      | Some tuple =>
          if truthy tuple then
            bind (tupleIndex tuple tuple_name) (fun n =>
              if Names_equals n name then Ok (Some b)
              else getDefinition_loop name rest)
          else getDefinition_loop name rest
      | None => getDefinition_loop name rest
      end
  end.

Definition getDefinition (name : string) (workspace : Workspace)
  : result (option Block) :=
  getDefinition_loop name (getTopBlocks workspace).

(* ================================================================== *)
(** ** Events and the mutable state *)
(* ================================================================== *)

(** [Blockly.Events.group_]: the empty string, or a generated uid. *)
Inductive Group : Type :=
| NoGroup
| GroupId (uid : nat).

(** Modelled from the spec: an event of the event-emission facility.  An
    event copies the group and the record-undo flag that are current when
    it is constructed. *)
Record Event : Type := mkEvent {
  ev_type : string;
  ev_blockId : string;
  ev_element : option string;
  ev_name : option string;
  ev_oldValue : option string;
  ev_newValue : option string;
  ev_group : Group;
  ev_recordUndo : bool
}.

(** A call [block.renameProcedure(oldName, newName)]. *)
Record RenameCall : Type := mkRenameCall {
  rc_blockId : string;
  rc_oldName : string;
  rc_newName : string
}.

(** What the functions read and write: the workspace of the blocks at
    hand, the serialized mutation of each block by id ([None] when
    [mutationToDom()] answers [null]), the globals of [Blockly.Events], the
    events fired and the [renameProcedure] calls made, oldest first. *)
Record State : Type := mkState {
  workspace : Workspace;
  mutation_ : string -> option string;
  recordUndo : bool;
  group_ : Group;
  nextUid : nat;
  FIRE_QUEUE_ : list Event;
  renameCalls : list RenameCall
}.

(** Stateful computations that may raise: the state written so far
    survives the exception. *)
Definition M (A : Type) : Type := State -> State * result A.

Definition ret {A} (a : A) : M A := fun st => (st, Ok a).

Definition raise {A} : M A := fun st => (st, Throw).

Definition bindM {A B} (c : M A) (k : A -> M B) : M B :=
  fun st =>
    match c st with
    | (st', Ok a) => k a st'
    | (st', Throw) => (st', Throw)
    end.

Definition lift {A} (r : result A) : M A := fun st => (st, r).

Definition gets {A} (f : State -> A) : M A := fun st => (st, Ok (f st)).

Definition modify (f : State -> State) : M unit := fun st => (f st, Ok tt).

Declare Scope m_scope.
Delimit Scope m_scope with M.
Notation "x <- c ;; k" := (bindM c (fun x => k))
  (at level 61, c at next level, right associativity) : m_scope.
Notation "c ;; k" := (bindM c (fun _ => k))
  (at level 61, right associativity) : m_scope.

Definition set_recordUndo (v : bool) (st : State) : State :=
  mkState (workspace st) (mutation_ st) v (group_ st) (nextUid st)
          (FIRE_QUEUE_ st) (renameCalls st).

Definition set_group (g : Group) (uid : nat) (st : State) : State :=
  mkState (workspace st) (mutation_ st) (recordUndo st) g uid
          (FIRE_QUEUE_ st) (renameCalls st).

Definition set_workspace (ws : Workspace) (st : State) : State :=
  mkState ws (mutation_ st) (recordUndo st) (group_ st) (nextUid st)
          (FIRE_QUEUE_ st) (renameCalls st).

Definition set_mutation (blockId : string) (m : option string) (st : State)
  : State :=
  mkState (workspace st)
          (fun i => if String.eqb i blockId then m else mutation_ st i)
          (recordUndo st) (group_ st) (nextUid st)
          (FIRE_QUEUE_ st) (renameCalls st).

Definition push_event (e : Event) (st : State) : State :=
  mkState (workspace st) (mutation_ st) (recordUndo st) (group_ st)
          (nextUid st) (FIRE_QUEUE_ st ++ [e]) (renameCalls st).

Definition push_renameCall (c : RenameCall) (st : State) : State :=
  mkState (workspace st) (mutation_ st) (recordUndo st) (group_ st)
          (nextUid st) (FIRE_QUEUE_ st) (renameCalls st ++ [c]).

(** Modelled from the spec: [block.mutationToDom(includeParamIds)] followed
    by [Blockly.Xml.domToText], the serialized snapshot of the block. *)
Definition mutationToDom (block : Block) (opt_paramIds : bool) : M (option string) :=
  gets (fun st => mutation_ st (id block)).

(** Modelled from the spec: [block.domToMutation(snapshot)], the block
    takes the snapshot as its own. *)
Definition domToMutation (block : Block) (xmlElement : option string) : M unit :=
  modify (set_mutation (id block) xmlElement).

(** Modelled from the spec: [new Blockly.Events.BlockChange(block, element,
    name, oldValue, newValue)]. *)
Definition BlockChange (block : Block) (element : string)
           (name oldValue newValue : option string) : M Event :=
  gets (fun st => mkEvent "change" (id block) (Some element) name
                          oldValue newValue (group_ st) (recordUndo st)).

(** Modelled from the spec: [Blockly.Events.fire(event)]. *)
Definition fire (event : Event) : M unit := modify (push_event event).

(** Modelled from the spec: [Blockly.Events.setGroup(state)] on a boolean:
    a fresh uid for [true], the empty group for [false]. *)
Definition setGroup (state : bool) : M unit :=
  modify (fun st =>
            if state then set_group (GroupId (nextUid st)) (S (nextUid st)) st
            else set_group NoGroup (nextUid st) st).

(** The tree under [b] without the blocks of id [rid]. *)
Fixpoint withoutBlock (rid : string) (b : Block) : Block :=
  mkBlock (id b) (type b) (isInFlyout b) (getProcedureDef b) (getProcCode b)
          (renameProcedure b)
          ((fix prune (cs : list Block) : list Block :=
              match cs with
              | [] => []
              | c :: cs' =>
                  if String.eqb (id c) rid then prune cs'
                  else withoutBlock rid c :: prune cs'
              end) (childBlocks_ b)).

Fixpoint withoutTop (rid : string) (tops : list Block) : list Block :=
  match tops with
  | [] => []
  | b :: rest =>
      if String.eqb (id b) rid then withoutTop rid rest
      else withoutBlock rid b :: withoutTop rid rest
  end.

(** Modelled from the spec: [block.dispose()], the block leaves the
    workspace with everything below it, and one delete event tells so. *)
Definition dispose (block : Block) : M unit :=
  (e <- gets (fun st => mkEvent "delete" (id block) None None None None
                                (group_ st) (recordUndo st)) ;;
   modify (fun st => set_workspace
                       (mkWorkspace (withoutTop (id block)
                                                (getTopBlocks (workspace st))))
                       st) ;;
   fire e)%M.

(** Modelled from the spec: [block.renameProcedure(oldName, newName)], for
    a block that has the method. *)
Definition call_renameProcedure (block : Block) (oldName newName : string)
  : M unit :=
  modify (push_renameCall (mkRenameCall (id block) oldName newName)).

(** [a != b] on serialized mutations, either of which may be [null]. *)
Definition mutation_neq (a b : option string) : bool :=
  match a, b with
  | Some x, Some y => negb (String.eqb x y)
  | None, None => false
  | _, _ => true
  end.

(* ================================================================== *)
(** ** Blockly.Procedures: the operations *)
(* ================================================================== *)

(** The loop of [rename] over [getAllBlocks()]. *)
Fixpoint rename_loop (blocks : list Block) (oldName legalName : string)
  : M unit :=
  match blocks with
  | [] => ret tt
  | b :: rest =>
      ((if renameProcedure b
        then call_renameProcedure b oldName legalName
        else ret tt) ;;
       rename_loop rest oldName legalName)%M
  end.

(** [rename(name)] on a field whose [sourceBlock_] and [text_] are given. *)
Definition rename (fuel : nat) (name : string) (sourceBlock_ : Block)
           (text_ : string) (st : State) : option (State * result string) :=
  let name := trim name in
  match findLegalName fuel name sourceBlock_ (workspace st) with
  | None => None
  | Some Throw => Some (st, Throw)
  | Some (Ok legalName) =>
      let oldName := text_ in
      Some (((if negb (String.eqb oldName name)
                 && negb (String.eqb oldName legalName)
              then rename_loop (getAllBlocks (workspace st)) oldName legalName
              else ret tt) ;;
             ret legalName)%M st)
  end.

(** The loop of [mutateCallers] over the callers. *)
Fixpoint mutateCallers_loop (callers : list Block) (xmlElement : option string)
         (oldRecordUndo : bool) : M unit :=
  match callers with
  | [] => ret tt
  | caller :: rest =>
      (oldMutation <- mutationToDom caller false ;;
       domToMutation caller xmlElement ;;
       newMutation <- mutationToDom caller false ;;
       (if mutation_neq oldMutation newMutation
        then modify (set_recordUndo false) ;;
             event <- BlockChange caller "mutation" None
                                  oldMutation newMutation ;;
             fire event ;;
             modify (set_recordUndo oldRecordUndo)
        else ret tt) ;;
       mutateCallers_loop rest xmlElement oldRecordUndo)%M
  end.

(** [mutateCallers(defBlock)].  The call of [getCallers] passes two
    arguments: [definitionRoot] and [allowRecursive] are [undefined]. *)
Definition mutateCallers (defBlock : Block) : M unit :=
  (oldRecordUndo <- gets recordUndo ;;
   name <- match getProcedureDef defBlock with
           | Some tuple => lift (tupleIndex tuple tuple_name)
           | None => raise
           end ;;
   xmlElement <- mutationToDom defBlock true ;;
   ws <- gets workspace ;;
   callers <- lift (getCallers name ws None false) ;;
   mutateCallers_loop callers xmlElement oldRecordUndo)%M.

(** [deleteProcedureDefCallback(procCode, definitionRoot)]. *)
Definition deleteProcedureDefCallback (procCode : string)
           (definitionRoot : Block) : M bool :=
  (ws <- gets workspace ;;
   callers <- lift (getCallers procCode ws (Some definitionRoot) false) ;;
   if (0 <? length callers)%nat then ret false
   else setGroup true ;;
        dispose definitionRoot ;;
        setGroup false ;;
        ret true)%M.

(* ================================================================== *)
(** ** Sample workspaces *)
(* ================================================================== *)

(** A definition of the procedure [foo], alone on its stack. *)
Definition ex_defFoo : Block :=
  mkBlock "def-foo" "procedures_defnoreturn" false
          (Some (Some (mkTuple "foo" ["a"; "b"] false))) None false [].

(** A definition of the procedure [foo2]. *)
Definition ex_defFoo2 : Block :=
  mkBlock "def-foo2" "procedures_defnoreturn" false
          (Some (Some (mkTuple "foo2" [] false))) None false [].

(** A call of [foo]. *)
Definition ex_callFoo : Block :=
  mkBlock "call-foo" "procedures_callnoreturn" false None (Some "foo") true [].

(** A call block fresh from its constructor: the identifier is still the
    empty string. *)
Definition ex_callBlank : Block :=
  mkBlock "call-blank" "procedures_callnoreturn" false None (Some "") true [].

(** A hat block with the call of [foo] below it. *)
Definition ex_script : Block :=
  mkBlock "hat" "event_whenflagclicked" false None None false [ex_callFoo].

(** A block that has [getProcedureDef] and answers [null]. *)
Definition ex_defNull : Block :=
  mkBlock "def-null" "procedures_defnoreturn" false (Some None) None false [].

Definition ex_wsEmpty : Workspace := mkWorkspace [].
Definition ex_wsFoo : Workspace := mkWorkspace [ex_defFoo].
Definition ex_wsFooCalled : Workspace := mkWorkspace [ex_defFoo; ex_script].
Definition ex_wsFooFoo2 : Workspace :=
  mkWorkspace [ex_defFoo; ex_defFoo2; ex_script].
Definition ex_wsBlank : Workspace := mkWorkspace [ex_defFoo; ex_callBlank].

(** A definition of [Add], which returns a value, and a script that
    calls it. *)
Definition ex_defAdd : Block :=
  mkBlock "def-add" "procedures_defreturn" false
          (Some (Some (mkTuple "Add" [] true))) None false [].

Definition ex_callAdd : Block :=
  mkBlock "call-add" "procedures_callreturn" false None (Some "Add") true [].

Definition ex_wsAdd : Workspace :=
  mkWorkspace
    [ex_defAdd;
     mkBlock "hat-add" "event_whenflagclicked" false None None false
             [ex_callAdd]].

Definition ex_wsNull : Workspace := mkWorkspace [ex_defFoo; ex_defNull].

(** Four definitions: [jump], [Add] with a return value, [JUMP] and
    [apple]. *)
Definition ex_wsJump : Workspace :=
  mkWorkspace
    [mkBlock "d1" "procedures_defnoreturn" false
             (Some (Some (mkTuple "jump" [] false))) None false [];
     mkBlock "d2" "procedures_defreturn" false
             (Some (Some (mkTuple "Add" [] true))) None false [];
     mkBlock "d3" "procedures_defnoreturn" false
             (Some (Some (mkTuple "JUMP" [] false))) None false [];
     mkBlock "d4" "procedures_defnoreturn" false
             (Some (Some (mkTuple "apple" [] false))) None false []].

Definition ex_state (ws : Workspace) : State :=
  mkState ws
          (fun i => if String.eqb i "def-foo" then Some "foo(a,b)"
                    else if String.eqb i "call-foo" then Some "foo(a)"
                    else None)
          true NoGroup 0 [] [].

(** Code-unit order, a collation to run the sort with. *)
Definition codeUnitCompare (a b : string) : Z :=
  match String.compare a b with
  | Lt => (-1)%Z
  | Eq => 0%Z
  | Gt => 1%Z
  end.

(* ================================================================== *)
(** ** Specification-side definitions *)
(* ================================================================== *)

(** [b] is a definition, other than [opt_exclude], whose name equals
    [name] without regard to case. *)
Definition definesName (name : string) (opt_exclude : option Block)
           (b : Block) : bool :=
  negb (isBlock b opt_exclude)
  && match getProcedureDef b with
     | Some (Some t) => Names_equals (tuple_name t) name
     | _ => false
     end.

(** Some block of the workspace other than [opt_exclude] defines [name]. *)
Definition nameIsDefined (name : string) (workspace : Workspace)
           (opt_exclude : option Block) : bool :=
  existsb (definesName name opt_exclude) (getAllBlocks workspace).

(** The tuples of the blocks that describe themselves as definitions, in
    block order. *)
Fixpoint definedTuples (blocks : list Block) : list ProcTuple :=
  match blocks with
  | [] => []
  | b :: rest =>
      match getProcedureDef b with
      | Some (Some t) => t :: definedTuples rest
      | _ => definedTuples rest
      end
  end.

(** No block with [getProcedureDef] answers [null]. *)
Definition noNullTuple (blocks : list Block) : Prop :=
  forall b, In b blocks -> getProcedureDef b <> Some None.

(** The state after an operation has the events of [evs], and only those,
    added to the queue. *)
Definition firedDuring (st st' : State) (evs : list Event) : Prop :=
  FIRE_QUEUE_ st' = FIRE_QUEUE_ st ++ evs.

(** The blocks that [getCallers] is to search: the descendants of every
    top block, in array order, the stack of [definitionRoot] left out
    unless recursive calls are allowed. *)
Definition stacksSearched (ws : Workspace) (definitionRoot : Block)
           (allowRecursive : bool) : list Block :=
  flat_map getDescendants
           (filter (fun top => negb (String.eqb (id top) (id definitionRoot)
                                     && negb allowRecursive))
                   (getTopBlocks ws)).

(** [block] is a call block, with or without a return value. *)
Definition isCallType (block : Block) : bool :=
  String.eqb (type block) "procedures_callnoreturn"
  || String.eqb (type block) "procedures_callreturn".

(** [block] is a call block whose identifier is [name]. *)
Definition callsProcedure (name : string) (block : Block) : bool :=
  isCallType block
  && match getProcCode block with
     | Some procCode => String.eqb procCode name
     | None => false
     end.

(** [block] is a call block without a return value whose identifier is
    [name]. *)
Definition callsNoReturnProcedure (name : string) (block : Block) : bool :=
  String.eqb (type block) "procedures_callnoreturn"
  && match getProcCode block with
     | Some procCode => String.eqb procCode name
     | None => false
     end.

(** The ids of the blocks of a workspace, stack by stack. *)
Definition blockIds (ws : Workspace) : list string :=
  map id (flat_map getDescendants (getTopBlocks ws)).

(** The [renameProcedure] calls that reach the blocks having the method,
    in block order. *)
Definition renameCallsFor (blocks : list Block) (oldName newName : string)
  : list RenameCall :=
  map (fun b => mkRenameCall (id b) oldName newName)
      (filter renameProcedure blocks).

(** Two states that differ at most in the [renameProcedure] calls made. *)
Definition sameButRenameCalls (st st' : State) : Prop :=
  workspace st' = workspace st
  /\ mutation_ st' = mutation_ st
  /\ recordUndo st' = recordUndo st
  /\ group_ st' = group_ st
  /\ nextUid st' = nextUid st
  /\ FIRE_QUEUE_ st' = FIRE_QUEUE_ st.

Definition firstChar (s : string) : option ascii :=
  match s with
  | EmptyString => None
  | String c _ => Some c
  end.

Fixpoint lastChar (s : string) : option ascii :=
  match s with
  | EmptyString => None
  | String c EmptyString => Some c
  | String _ s' => lastChar s'
  end.

(** [s] is [t] with white space around it. *)
Definition paddingOf (s t : string) : Prop :=
  exists pre suf, s = (pre ++ t ++ suf)%string
                  /\ allSpace pre = true /\ allSpace suf = true.

(** [t] neither starts nor ends with white space. *)
Definition trimmed (t : string) : Prop :=
  (forall c, firstChar t = Some c -> isSpace c = false)
  /\ (forall c, lastChar t = Some c -> isSpace c = false).

(** [ta] sorts no later than [tb]: the names compare at most equal once
    put in lower case. *)
Definition nameLe (localeCompare : string -> string -> Z)
           (ta tb : ProcTuple) : Prop :=
  (localeCompare (toLowerCase (tuple_name ta)) (toLowerCase (tuple_name tb))
   <= 0)%Z.

(** The name of [t] equals [name] without regard to case. *)
Definition hasName (name : string) (t : ProcTuple) : bool :=
  Names_equals (tuple_name t) name.

Definition noReturn (t : ProcTuple) : bool := negb (tuple_hasReturn t).

(** A name longer than every defined name. *)
Definition unusedName (blocks : list Block) : string :=
  fold_right (fun t acc => (tuple_name t ++ acc)%string) "x"
             (definedTuples blocks).

(** The integers up to [2^53] are the ones that the doubles of the source
    hold exactly; on them [parseInt] and [numberToString] are what the
    source computes. *)
Definition maxExact : N := 9007199254740992%N.

(** The name after [k] turns of the loop of [findLegalName]. *)
Fixpoint iterNextName (k : nat) (name : string) : string :=
  match k with
  | O => name
  | S k' => iterNextName k' (nextName name)
  end.

(** A definition of [rec] whose own stack holds a call of [rec]. *)
Definition ex_defRec : Block :=
  mkBlock "def-rec" "procedures_defnoreturn" false
          (Some (Some (mkTuple "rec" [] false))) None false
          [mkBlock "call-rec" "procedures_callnoreturn" false None
                   (Some "rec") true []].

Definition ex_wsRec : Workspace := mkWorkspace [ex_defRec; ex_script].

(** The callers whose snapshot differs from [xmlElement] in [st]. *)
Definition staleCallers (callers : list Block) (xmlElement : option string)
           (st : State) : list Block :=
  filter (fun c => mutation_neq (mutation_ st (id c)) xmlElement) callers.

(* ================================================================== *)
(** ** The loop of mutateCallers, statement by statement *)
(* ================================================================== *)

(** The statements of the loop that call out of it or write
    [Blockly.Events.recordUndo]. *)
Inductive Stmt : Type :=
| CallMutationToDom (blockId : string)
| CallDomToMutation (blockId : string)
| WriteRecordUndo (v : bool)
| CallFire (event : Event).

(** A statement that was run, with the value of the record-undo flag that
    it found. *)
Record Ran : Type := mkRan {
  ran_stmt : Stmt;
  ran_flag : bool
}.

(** Stateful computations that also keep the log of the statements run,
    oldest first. *)
Definition L (A : Type) : Type := State -> list Ran * (State * result A).

Definition retL {A} (a : A) : L A := fun st => ([], (st, Ok a)).

Definition bindL {A B} (c : L A) (k : A -> L B) : L B :=
  fun st =>
    match c st with
    | (log, (st', Ok a)) => let '(log', r) := k a st' in (log ++ log', r)
    | (log, (st', Throw)) => (log, (st', Throw))
    end.

(** A computation that leaves no entry in the log. *)
Definition silent {A} (c : M A) : L A := fun st => ([], c st).

(** The statement [s], run as [c] and entered in the log. *)
Definition logged {A} (s : Stmt) (c : M A) : L A :=
  fun st => ([mkRan s (recordUndo st)], c st).

Declare Scope l_scope.
Delimit Scope l_scope with L.
Notation "x <- c ;; k" := (bindL c (fun x => k))
  (at level 61, c at next level, right associativity) : l_scope.
Notation "c ;; k" := (bindL c (fun _ => k))
  (at level 61, right associativity) : l_scope.

(** The loop of [mutateCallers] with its log: the same statements in the
    same order as [mutateCallers_loop]. *)
Fixpoint mutateCallers_loop_logged (callers : list Block)
         (xmlElement : option string) (oldRecordUndo : bool) : L unit :=
  match callers with
  | [] => retL tt
  | caller :: rest =>
      (oldMutation <- logged (CallMutationToDom (id caller))
                             (mutationToDom caller false) ;;
       logged (CallDomToMutation (id caller))
              (domToMutation caller xmlElement) ;;
       newMutation <- logged (CallMutationToDom (id caller))
                             (mutationToDom caller false) ;;
       (if mutation_neq oldMutation newMutation
        then logged (WriteRecordUndo false) (modify (set_recordUndo false)) ;;
             event <- silent (BlockChange caller "mutation" None
                                          oldMutation newMutation) ;;
             logged (CallFire event) (fire event) ;;
             logged (WriteRecordUndo oldRecordUndo)
                    (modify (set_recordUndo oldRecordUndo))
        else retL tt) ;;
       mutateCallers_loop_logged rest xmlElement oldRecordUndo)%L
  end.

(** The events fired by the statements of a log. *)
Definition firedIn (log : list Ran) : list Event :=
  flat_map (fun r => match ran_stmt r with
                     | CallFire e => [e]
                     | _ => []
                     end) log.

(** A log in which the flag is written only around an emission: off right
    before it and back to [entry] right after it, the event made with the
    flag off, and in which every call into a caller finds the flag at
    [entry]. *)
Inductive Bracketed (entry : bool) : list Ran -> Prop :=
| Bracketed_nil : Bracketed entry []
| Bracketed_read blockId log :
    Bracketed entry log ->
    Bracketed entry (mkRan (CallMutationToDom blockId) entry :: log)
| Bracketed_apply blockId log :
    Bracketed entry log ->
    Bracketed entry (mkRan (CallDomToMutation blockId) entry :: log)
| Bracketed_emit event log :
    ev_recordUndo event = false ->
    Bracketed entry log ->
    Bracketed entry (mkRan (WriteRecordUndo false) entry
                     :: mkRan (CallFire event) false
                     :: mkRan (WriteRecordUndo entry) false
                     :: log).

(* ================================================================== *)
(** ** Blockly.Procedures.flyoutCategory *)
(* ================================================================== *)

(** An XML element: its tag, its attributes in the order they were first
    set, its text and its child elements. *)
Inductive Element : Type := mkElement {
  tagName : string;
  attributes : list (string * string);
  textContent : option string;
  childNodes : list Element
}.

(** [goog.dom.createDom(tag, null, opt_text)]. *)
Definition createDom (tag : string) (opt_text : option string) : Element :=
  mkElement tag [] opt_text [].

Fixpoint setAttr (name value : string) (attrs : list (string * string))
  : list (string * string) :=
  match attrs with
  | [] => [(name, value)]
  | (n, v) :: rest =>
      if String.eqb n name then (n, value) :: rest
      else (n, v) :: setAttr name value rest
  end.

(** [e.setAttribute(name, value)]: a number is stored as its decimal
    string. *)
Definition setAttribute (name value : string) (e : Element) : Element :=
  mkElement (tagName e) (setAttr name value (attributes e)) (textContent e)
            (childNodes e).

Fixpoint getAttr (name : string) (attrs : list (string * string))
  : option string :=
  match attrs with
  | [] => None
  | (n, v) :: rest => if String.eqb n name then Some v else getAttr name rest
  end.

(** [e.getAttribute(name)]. *)
Definition getAttribute (name : string) (e : Element) : option string :=
  getAttr name (attributes e).

(** [e.appendChild(child)]. *)
Definition appendChild (child e : Element) : Element :=
  mkElement (tagName e) (attributes e) (textContent e) (childNodes e ++ [child]).

(** [l[l.length - 1] = f(l[l.length - 1])] on a non-empty array. *)
Fixpoint updateLast (f : Element -> Element) (l : list Element)
  : list Element :=
  match l with
  | [] => []
  | [x] => [f x]
  | x :: rest => x :: updateLast f rest
  end.

(** The entries of [Blockly.Blocks] that [flyoutCategory] looks up. *)
Record BlocksRegistry : Type := mkBlocksRegistry {
  procedures_defnoreturn : bool;
  procedures_defreturn : bool;
  procedures_report : bool
}.

(** The entries of [Blockly.Msg] that [flyoutCategory] reads. *)
Record Messages : Type := mkMessages {
  PROCEDURES_DEFNORETURN_PROCEDURE : string;
  PROCEDURES_DEFRETURN_PROCEDURE : string
}.

(** The block element of a definition in the flyout, with its name
    field. *)
Definition definitionElement (typeName text : string) : Element :=
  let block := createDom "block" None in
  let block := setAttribute "type" typeName block in
  let block := setAttribute "gap" "16" block in
  let nameField := createDom "field" (Some text) in
  let nameField := setAttribute "name" "NAME" nameField in
  appendChild nameField block.

(** One turn of the loop of [populateProcedures].  The source appends the
    mutation to the block before it fills it; the block sees the filled
    mutation. *)
Definition procedureElement (templateName : string) (t : ProcTuple)
  : Element :=
  let name := tuple_name t in
  let args := tuple_params t in
  let block := createDom "block" None in
  let block := setAttribute "type" templateName block in
  let block := setAttribute "gap" "16" block in
  let mutation := createDom "mutation" None in
  let mutation := setAttribute "name" name mutation in
  let mutation :=
    fold_left (fun m a =>
                 appendChild (setAttribute "name" a (createDom "arg" None)) m)
              args mutation in
  appendChild mutation block.

Definition populateProcedures (procedureList : list ProcTuple)
           (templateName : string) (xmlList : list Element) : list Element :=
  fold_left (fun l t => l ++ [procedureElement templateName t])
            procedureList xmlList.

(** The elements for the blocks that define and report, before the gap of
    the last one is widened. *)
Definition systemElements (Blocks : BlocksRegistry) (Msg : Messages)
  : list Element :=
  let xmlList := [] in
  let xmlList :=
    if procedures_defnoreturn Blocks
    then xmlList ++ [definitionElement "procedures_defnoreturn"
                       (PROCEDURES_DEFNORETURN_PROCEDURE Msg)]
    else xmlList in
  let xmlList :=
    if procedures_defreturn Blocks
    then xmlList ++ [definitionElement "procedures_defreturn"
                       (PROCEDURES_DEFRETURN_PROCEDURE Msg)]
    else xmlList in
  if procedures_report Blocks
  then xmlList ++ [setAttribute "gap" "16"
                     (setAttribute "type" "procedures_report"
                                   (createDom "block" None))]
  else xmlList.

Definition flyoutCategory (localeCompare : string -> string -> Z)
           (Blocks : BlocksRegistry) (Msg : Messages) (workspace : Workspace)
  : result (list Element) :=
  let xmlList := systemElements Blocks Msg in
  let xmlList :=
    if negb (length xmlList =? 0)%nat
    then updateLast (setAttribute "gap" "24") xmlList
    else xmlList in
  bind (allProcedures localeCompare workspace) (fun tuple =>
    let xmlList :=
      populateProcedures (fst tuple) "procedures_callnoreturn" xmlList in
    let xmlList :=
      populateProcedures (snd tuple) "procedures_callreturn" xmlList in
    Ok xmlList).

(** The signature that a call element of the flyout stands for: the
    return flag from its type, the name from its mutation, the parameters
    from the [arg] children in order. *)
Definition readProcedure (e : Element) : option ProcTuple :=
  match getAttribute "type" e, childNodes e with
  | Some ty, [mutation] =>
      match getAttribute "name" mutation with
      | Some name =>
          if String.eqb ty "procedures_callreturn"
          then Some (mkTuple name
                             (flat_map (fun a => match getAttribute "name" a
                                                 with
                                                 | Some p => [p]
                                                 | None => []
                                                 end) (childNodes mutation))
                             true)
          else if String.eqb ty "procedures_callnoreturn"
          then Some (mkTuple name
                             (flat_map (fun a => match getAttribute "name" a
                                                 with
                                                 | Some p => [p]
                                                 | None => []
                                                 end) (childNodes mutation))
                             false)
          else None
      | None => None
      end
  | _, _ => None
  end.

(** The number of block types of the registry that are present. *)
Definition systemCount (Blocks : BlocksRegistry) : nat :=
  (if procedures_defnoreturn Blocks then 1 else 0)
  + (if procedures_defreturn Blocks then 1 else 0)
  + (if procedures_report Blocks then 1 else 0).

(* ================================================================== *)
(** ** scratch-paint: the handle tool *)
(* ================================================================== *)

Module HandleTool.

Section Tool.

Variable Point : Type.

(** A segment of a path: its point and the point it had before the drag
    started, [None] for [null]. *)
Record Segment : Type := mkSegment {
  point : Point;
  origPoint : option Point
}.

(** [seg.equals(p)], of the drawing library. *)
Variable equals : Segment -> Point -> bool.

(** A selected item; [segments] is [None] when the item has none. *)
Record Item : Type := mkItem {
  segments : option (list Segment)
}.

(** The fields of the tool that [onMouseUp] reads and writes, and the
    number of calls of [onUpdateSvg]. *)
Record Tool : Type := mkTool {
  selectedItems : list Item;
  updateSvgCalls : nat
}.

(** The inner loop of [onMouseUp] over the segments of an item. *)
Fixpoint releaseSegments (segs : list Segment) (moved : bool)
  : list Segment * bool :=
  match segs with
  | [] => ([], moved)
  | seg :: rest =>
      let moved :=
        match origPoint seg with
        | Some p => if negb (equals seg p) then true else moved
        | None => moved
        end in
      let '(rest', moved') := releaseSegments rest moved in
      (mkSegment (point seg) None :: rest', moved')
  end.

(** The outer loop of [onMouseUp]; the second component is [None] when
    the function returned from inside the loop. *)
Fixpoint releaseItems (items : list Item) (moved : bool)
  : list Item * option bool :=
  match items with
  | [] => ([], Some moved)
  | item :: rest =>
      match segments item with
      | None => (items, None)
      | Some segs =>
          let '(segs', moved1) := releaseSegments segs moved in
          let '(rest', out) := releaseItems rest moved1 in
          (mkItem (Some segs') :: rest', out)
      end
  end.

(** [onMouseUp()]: the tool afterwards, and the items that were selected
    as the call leaves them. *)
Definition onMouseUp (tool : Tool) : Tool * list Item :=
  let '(items, out) := releaseItems (selectedItems tool) false in
  match out with
  | None => (mkTool items (updateSvgCalls tool), items)
  | Some moved =>
      (mkTool [] (if moved then S (updateSvgCalls tool)
                  else updateSvgCalls tool),
       items)
  end.

(** The segment has a point of origin and is not equal to it. *)
Definition segMoved (seg : Segment) : bool :=
  match origPoint seg with
  | Some p => negb (equals seg p)
  | None => false
  end.

Definition itemMoved (item : Item) : bool :=
  match segments item with
  | Some segs => existsb segMoved segs
  | None => false
  end.

(** The item with the points of origin of its segments forgotten. *)
Definition released (item : Item) : Item :=
  mkItem (option_map (map (fun seg => mkSegment (point seg) None))
                     (segments item)).

End Tool.

End HandleTool.

(* ================================================================== *)
(** ** scratch-paint: the guides *)
(* ================================================================== *)

Module Guides.

(** An item of the drawing: [data] is [None] when the item has no data
    object, else the truthiness of its entries; [own] is the truthiness of
    the properties of the item itself. *)
Record PaperItem : Type := mkPaperItem {
  itemId : nat;
  data : option (string -> bool);
  own : string -> bool
}.

Definition GUIDE_BLUE : string := "#009dec".
Definition GUIDE_GREY : string := "#aaaaaa".

Definition getGuideColor : string := GUIDE_BLUE.

Definition dataTag (item : PaperItem) (tag : string) : bool :=
  match data item with
  | Some d => d tag
  | None => false
  end.

(** [_removePaperItemsByDataTags(tags)] over the items that
    [getAllRootItems(true)] answers: the ids of the items on which
    [remove()] is called, call by call. *)
Definition _removePaperItemsByDataTags (tags : list string)
           (allItems : list PaperItem) : list nat :=
  flat_map (fun item =>
              flat_map (fun tag => if dataTag item tag then [itemId item]
                                   else []) tags)
           allItems.

Definition _removePaperItemsByTags (tags : list string)
           (allItems : list PaperItem) : list nat :=
  flat_map (fun item =>
              flat_map (fun tag => if own item tag then [itemId item]
                                   else []) tags)
           allItems.

Definition removeBoundsPath (allItems : list PaperItem) : list nat :=
  _removePaperItemsByDataTags ["isSelectionBound"; "isRotHandle";
                               "isScaleHandle"] allItems.

Definition removeAllGuides (allItems : list PaperItem) : list nat :=
  _removePaperItemsByTags ["guide"] allItems.

Definition removeHitPoint (allItems : list PaperItem) : list nat :=
  _removePaperItemsByDataTags ["isHitPoint"] allItems.

(** How many of the three tags of the selection bounds the item has. *)
Definition boundsTags (item : PaperItem) : nat :=
  (if dataTag item "isSelectionBound" then 1 else 0)
  + (if dataTag item "isRotHandle" then 1 else 0)
  + (if dataTag item "isScaleHandle" then 1 else 0).

End Guides.

(* ================================================================== *)
(** ** scratch-paint: the undo reducer *)
(* ================================================================== *)

Module Undo.

Section Reducer.

(** The values that are kept as snapshots. *)
Variable Snapshot : Type.

(** [action.snapshot]: a falsy value, an array, whose elements [concat]
    appends one by one, or any other value. *)
Inductive Payload : Type :=
| Falsy
| Value (v : Snapshot)
| Array (vs : list Snapshot).

(** An action, by its [type]; [OTHER] is any type the reducer does not
    know. *)
Inductive Action : Type :=
| UNDO
| REDO
| SNAPSHOT (snapshot : Payload)
| CLEAR
| OTHER.

Record UndoState : Type := mkUndoState {
  stack : list Snapshot;
  pointer : Z
}.

Definition initialState : UndoState := mkUndoState [] (-1).

(** [l.slice(0, e)]: a negative end counts from the end of the array. *)
Definition slice0 (l : list Snapshot) (e : Z) : list Snapshot :=
  let len := Z.of_nat (length l) in
  let final := if (e <? 0)%Z then Z.max (len + e) 0 else Z.min e len in
  firstn (Z.to_nat final) l.

(** [l.concat(payload)] for a payload that is not falsy. *)
Definition concat (l : list Snapshot) (payload : Payload) : list Snapshot :=
  match payload with
  | Falsy => l
  | Value v => l ++ [v]
  | Array vs => l ++ vs
  end.

(** [reducer(state, action)]: the next state and what [log.warn] was
    given.  [state] is [None] for [undefined]. *)
Definition reducer (state : option UndoState) (action : Action)
  : UndoState * list string :=
  let state := match state with
               | Some s => s
               | None => initialState
               end in
  match action with
  | UNDO =>
      if (pointer state <=? 0)%Z
      then (state, ["Can't undo, undo stack is empty"])
      else (mkUndoState (stack state) (pointer state - 1), [])
  | REDO =>
      if (pointer state <=? -1)%Z
         || (pointer state =? Z.of_nat (length (stack state)) - 1)%Z
      then (state, ["Can't redo, redo stack is empty"])
      else (mkUndoState (stack state) (pointer state + 1), [])
  | SNAPSHOT snapshot =>
      match snapshot with
      | Falsy => (state, ["Couldn't create undo snapshot, no data provided"])
      | _ => (mkUndoState
                (concat (slice0 (stack state) (pointer state + 1)) snapshot)
                (pointer state + 1), [])
      end
  | CLEAR => (initialState, [])
  | OTHER => (state, [])
  end.

Definition undoSnapshot (snapshot : Payload) : Action := SNAPSHOT snapshot.
Definition undo : Action := UNDO.
Definition redo : Action := REDO.
Definition clearUndoState : Action := CLEAR.

(** The state after the actions of a list, dispatched in order. *)
Definition dispatchAll (s : UndoState) (actions : list Action) : UndoState :=
  fold_left (fun s a => fst (reducer (Some s) a)) actions s.

(** The pointer is [-1] or the index of a snapshot of the stack. *)
Definition pointerInRange (s : UndoState) : Prop :=
  (-1 <= pointer s < Z.of_nat (length (stack s)))%Z.

(** The snapshot the pointer is at. *)
Definition current (s : UndoState) : option Snapshot :=
  if (pointer s <? 0)%Z then None
  else nth_error (stack s) (Z.to_nat (pointer s)).

End Reducer.

Arguments Falsy {Snapshot}.
Arguments UNDO {Snapshot}.
Arguments REDO {Snapshot}.
Arguments CLEAR {Snapshot}.
Arguments OTHER {Snapshot}.
Arguments initialState {Snapshot}.
Arguments undo {Snapshot}.
Arguments redo {Snapshot}.
Arguments clearUndoState {Snapshot}.

End Undo.

(* ================================================================== *)
(** ** isNameUsed *)
(* ================================================================== *)

Lemma isNameUsed_loop_spec name ex blocks :
  noNullTuple blocks ->
  isNameUsed_loop name blocks ex
  = Ok (negb (existsb (definesName name ex) blocks)).
Proof.
  induction blocks as [|b rest IH]; intros Hnn; simpl; [reflexivity|].
  assert (Hrest : noNullTuple rest) by (intros x Hx; apply Hnn; now right).
  specialize (IH Hrest).
  unfold definesName at 1.
  destruct (isBlock b ex); simpl; [exact IH|].
  destruct (getProcedureDef b) as [[t|]|] eqn:Hd; simpl.
  - destruct (Names_equals (tuple_name t) name); simpl; [reflexivity|exact IH].
  - exfalso. apply (Hnn b); [now left|exact Hd].
  - exact IH.
Qed.

(** What the code answers: [false] when the name is defined, [true] when
    it is not. *)
Lemma isNameUsed_negates name workspace ex :
  noNullTuple (getAllBlocks workspace) ->
  isNameUsed name workspace ex = Ok (negb (nameIsDefined name workspace ex)).
Proof. intros H. apply isNameUsed_loop_spec, H. Qed.

(** C2: [isNameUsed] is to answer [true] exactly when a block other than
    the excluded one defines the name.  The code answers the opposite: on
    the empty workspace, where nothing is defined, it answers [true], and
    on the workspace that defines [foo] it answers [false] for [FOO]. *)
Theorem isNameUsed_answers_opposite :
  nameIsDefined "foo" ex_wsEmpty None = false
  /\ isNameUsed "foo" ex_wsEmpty None = Ok true
  /\ nameIsDefined "FOO" ex_wsFoo None = true
  /\ isNameUsed "FOO" ex_wsFoo None = Ok false.
Proof. repeat split; reflexivity. Qed.

(* ================================================================== *)
(** ** findLegalName *)
(* ================================================================== *)

(** The two groups of a match make up the name, and the second is a
    non-empty run of digits. *)
Lemma matchTrailingDigits_spec s p d :
  matchTrailingDigits s = Some (p, d) ->
  s = (p ++ d)%string /\ allDigits d = true /\ d <> EmptyString.
Proof.
  revert p. induction s as [|c s IH]; intros p; [discriminate|].
  cbn [matchTrailingDigits].
  destruct (allDigits (String c s)) eqn:Hd.
  - intros [= <- <-]. repeat split; [exact Hd|discriminate].
  - destruct (isLineTerminator c); [discriminate|].
    destruct (matchTrailingDigits s) as [[p' d']|]; [|discriminate].
    intros [= <- <-]. destruct (IH p' eq_refl) as [H1 [H2 H3]].
    repeat split; [simpl; now rewrite <- H1|exact H2|exact H3].
Qed.

(** The collision step on sample names: a trailing integer goes up by
    one, and a name without one gets the digit 2. *)
Lemma nextName_samples :
  nextName "foo" = "foo2"
  /\ nextName "foo2" = "foo3"
  /\ nextName "foo9" = "foo10"
  /\ nextName "foo 099" = "foo 100"
  /\ nextName "" = "2".
Proof. repeat split; reflexivity. Qed.

(** When no name is defined by another block, every test of the loop
    reports a collision and the loop does not leave. *)
Lemma findLegalName_loop_stuck workspace block :
  (forall name, isNameUsed name workspace (Some block) = Ok true) ->
  forall fuel name, findLegalName_loop fuel name workspace block = None.
Proof.
  intros Hused fuel. induction fuel as [|fuel IH]; intros name; simpl.
  - reflexivity.
  - unfold isLegalName_. rewrite Hused. simpl. apply IH.
Qed.

Lemma ex_wsFoo_all_names_collide name :
  isNameUsed name ex_wsFoo (Some ex_defFoo) = Ok true.
Proof. reflexivity. Qed.

(** C3: [findLegalName] is to terminate with a name that no other
    definition uses.  On the workspace whose only block is the definition
    [foo] itself, out of the flyout, the loop never leaves, whatever the
    proposed name and however long it runs. *)
Theorem findLegalName_never_returns :
  isInFlyout ex_defFoo = false
  /\ forall fuel name, findLegalName fuel name ex_defFoo ex_wsFoo = None.
Proof.
  split; [reflexivity|].
  intros fuel name. unfold findLegalName. simpl.
  apply findLegalName_loop_stuck. exact ex_wsFoo_all_names_collide.
Qed.

(* ================================================================== *)
(** ** The null guard on the answer of getProcedureDef *)
(* ================================================================== *)

Lemma toLowerCase_length s : String.length (toLowerCase s) = String.length s.
Proof. induction s as [|c s IH]; simpl; congruence. Qed.

Lemma Names_equals_length a b :
  Names_equals a b = true -> String.length a = String.length b.
Proof.
  unfold Names_equals. intros H. apply String.eqb_eq in H.
  rewrite <- (toLowerCase_length a), <- (toLowerCase_length b). now rewrite H.
Qed.

Lemma append_length (a b : string) :
  String.length (a ++ b)%string = String.length a + String.length b.
Proof. induction a as [|c a IH]; simpl; [reflexivity|now rewrite IH]. Qed.

Lemma unusedName_longer blocks t :
  In t (definedTuples blocks) ->
  String.length (tuple_name t) < String.length (unusedName blocks).
Proof.
  unfold unusedName.
  induction (definedTuples blocks) as [|u l IH]; simpl; [contradiction|].
  rewrite append_length. intros [->|Hin]; [|specialize (IH Hin)].
  - clear IH. induction l as [|v l IHl]; simpl; [lia|].
    rewrite append_length. lia.
  - lia.
Qed.

Lemma unusedName_not_defined blocks t :
  In t (definedTuples blocks) ->
  Names_equals (tuple_name t) (unusedName blocks) = false.
Proof.
  intros Hin. destruct (Names_equals _ _) eqn:E; [|reflexivity].
  apply Names_equals_length in E.
  pose proof (unusedName_longer blocks t Hin). lia.
Qed.

(** Without an earlier match to leave the loop, the first block that
    answers [null] makes [procName[0]] raise. *)
Lemma isNameUsed_loop_raises name blocks :
  (exists b, In b blocks /\ getProcedureDef b = Some None) ->
  (forall t, In t (definedTuples blocks) ->
             Names_equals (tuple_name t) name = false) ->
  isNameUsed_loop name blocks None = Throw.
Proof.
  induction blocks as [|b rest IH]; intros [x [Hin Hx]] Hfresh.
  - destruct Hin.
  - simpl in *. destruct (getProcedureDef b) as [[t|]|] eqn:Hd; simpl.
    + rewrite (Hfresh t) by now left.
      destruct Hin as [->|Hin]; [congruence|].
      apply IH; [now exists x|]. intros u Hu. apply Hfresh. now right.
    + reflexivity.
    + destruct Hin as [->|Hin]; [congruence|].
      apply IH; [now exists x|exact Hfresh].
Qed.

Lemma allProcedures_loop_returns blocks :
  forall accR accN, exists r, allProcedures_loop blocks accR accN = Ok r.
Proof.
  induction blocks as [|b rest IH]; intros accR accN; simpl.
  - now eexists.
  - destruct (getProcedureDef b) as [[t|]|]; simpl; try apply IH.
    destruct (tuple_hasReturn t); apply IH.
Qed.

Lemma getDefinition_loop_returns name blocks :
  exists r, getDefinition_loop name blocks = Ok r.
Proof.
  induction blocks as [|b rest IH]; simpl.
  - now eexists.
  - destruct (getProcedureDef b) as [[t|]|]; simpl; try exact IH.
    destruct (Names_equals (tuple_name t) name); [now eexists|exact IH].
Qed.

(** C10: [isNameUsed] indexes the answer of [getProcedureDef] without a
    guard.  It returns on every workspace where no block answers [null];
    on every workspace where some block does, some name makes it raise;
    [allProcedures] and [getDefinition], which test the tuple first, return
    on every workspace. *)
Theorem isNameUsed_lacks_the_null_guard :
  (forall name workspace opt_exclude,
      noNullTuple (getAllBlocks workspace) ->
      exists r, isNameUsed name workspace opt_exclude = Ok r)
  /\ (forall workspace,
         (exists b, In b (getAllBlocks workspace)
                    /\ getProcedureDef b = Some None) ->
         exists name, isNameUsed name workspace None = Throw)
  /\ (forall localeCompare workspace,
         exists r, allProcedures localeCompare workspace = Ok r)
  /\ (forall name workspace, exists r, getDefinition name workspace = Ok r).
Proof.
  repeat split.
  - intros name ws ex Hnn. rewrite (isNameUsed_negates name ws ex Hnn).
    now eexists.
  - intros ws Hex. exists (unusedName (getAllBlocks ws)).
    apply isNameUsed_loop_raises; [exact Hex|].
    intros t Ht. now apply unusedName_not_defined.
  - intros cmp ws. unfold allProcedures.
    destruct (allProcedures_loop_returns (getAllBlocks ws) [] []) as [[r n] ->].
    simpl. now eexists.
  - intros name ws. apply getDefinition_loop_returns.
Qed.

(** The workspace [ex_wsFoo] has no [null] answer and [isNameUsed] returns
    on it; [ex_wsNull] has one, and [isNameUsed] raises there. *)
Lemma isNameUsed_lacks_the_null_guard_witness :
  (exists r, isNameUsed "bar" ex_wsFoo None = Ok r)
  /\ (exists name, isNameUsed name ex_wsNull None = Throw).
Proof.
  split.
  - apply (proj1 isNameUsed_lacks_the_null_guard "bar" ex_wsFoo None).
    intros b Hb. simpl in Hb. destruct Hb as [<-|[]]. discriminate.
  - apply (proj1 (proj2 isNameUsed_lacks_the_null_guard) ex_wsNull).
    exists ex_defNull. split; [simpl; tauto|reflexivity].
Defined.

(* ================================================================== *)
(** ** getCallers *)
(* ================================================================== *)

Lemma getCallers_stacks_spec tops root allowRecursive :
  getCallers_stacks tops (Some root) allowRecursive
  = Ok (flat_map getDescendants
          (filter (fun top => negb (String.eqb (id top) (id root)
                                    && negb allowRecursive)) tops)).
Proof.
  induction tops as [|t rest IH]; simpl; [reflexivity|].
  rewrite IH. simpl.
  destruct (String.eqb (id t) (id root) && negb allowRecursive); reflexivity.
Qed.

Lemma isCallerOf_spec name block :
  isCallerOf name block
  = callsNoReturnProcedure name block && negb (String.eqb name "").
Proof.
  unfold isCallerOf, callsNoReturnProcedure, truthyString.
  destruct (String.eqb (type block) "procedures_callnoreturn"); simpl;
    [|reflexivity].
  destruct (getProcCode block) as [pc|]; [|reflexivity].
  destruct (String.eqb_spec pc name) as [->|Hne].
  - now rewrite andb_true_r.
  - now rewrite andb_false_r.
Qed.

(** [getCallers] with a definition root given, as a filter. *)
Lemma getCallers_filter name ws definitionRoot allowRecursive :
  getCallers name ws (Some definitionRoot) allowRecursive
  = Ok (filter (fun b => callsNoReturnProcedure name b && negb (String.eqb name ""))
               (stacksSearched ws definitionRoot allowRecursive)).
Proof.
  unfold getCallers, stacksSearched.
  rewrite getCallers_stacks_spec. simpl. f_equal.
  apply filter_ext. intros b. apply isCallerOf_spec.
Qed.

(** C5, as amended: with a definition root given, [getCallers] returns the
    call blocks without a return value (type [procedures_callnoreturn])
    whose identifier equals [name] and is not the empty string, out of the
    descendants of every top block but, when [allowRecursive] is off, the
    stack of the definition root; they come in the order of the top
    blocks, then of the descendants. *)
Theorem getCallers_spec name ws definitionRoot allowRecursive :
  getCallers name ws (Some definitionRoot) allowRecursive
  = Ok (filter (fun b => callsNoReturnProcedure name b && negb (String.eqb name ""))
               (stacksSearched ws definitionRoot allowRecursive)).
Proof. apply getCallers_filter. Qed.

(** C5 as stated fails in two ways.  For the empty name: the blank call
    block of [ex_wsBlank] is a call block whose identifier equals the
    name, it is among the blocks searched, and [getCallers] leaves it out.
    For a call with a return value: the call of [Add] in [ex_wsAdd] is a
    call block whose identifier equals the name, it is in a stack other
    than that of the definition, and [getCallers] leaves it out. *)
Lemma getCallers_leaves_out_call_blocks :
  (callsProcedure "" ex_callBlank = true
   /\ In ex_callBlank (stacksSearched ex_wsBlank ex_defFoo true)
   /\ getCallers "" ex_wsBlank (Some ex_defFoo) true = Ok []
   /\ getCallers "" ex_wsBlank (Some ex_defFoo) true
      <> Ok (filter (callsProcedure "")
                    (stacksSearched ex_wsBlank ex_defFoo true)))
  /\ (callsProcedure "Add" ex_callAdd = true
      /\ In ex_callAdd (stacksSearched ex_wsAdd ex_defAdd false)
      /\ getCallers "Add" ex_wsAdd (Some ex_defAdd) false = Ok []
      /\ getCallers "Add" ex_wsAdd (Some ex_defAdd) false
         <> Ok (filter (callsProcedure "Add")
                       (stacksSearched ex_wsAdd ex_defAdd false))).
Proof.
  split; repeat split; try reflexivity; try discriminate; simpl; tauto.
Qed.

(* ================================================================== *)
(** ** mutateCallers *)
(* ================================================================== *)

(** With [definitionRoot] left out, [getCallers] raises as soon as there is
    a top block to compare with. *)
Lemma getCallers_without_root_raises name ws allowRecursive :
  getTopBlocks ws <> [] ->
  getCallers name ws None allowRecursive = Throw.
Proof.
  unfold getCallers. destruct (getTopBlocks ws); [congruence|reflexivity].
Qed.

(** [mutateCallers] with the monad unfolded. *)
Lemma mutateCallers_unfold defBlock st :
  mutateCallers defBlock st
  = match getProcedureDef defBlock with
    | Some (Some t) =>
        match getCallers (tuple_name t) (workspace st) None false with
        | Ok callers =>
            mutateCallers_loop callers (mutation_ st (id defBlock))
                               (recordUndo st) st
        | Throw => (st, Throw)
        end
    | _ => (st, Throw)
    end.
Proof.
  unfold mutateCallers, bindM, gets, lift, raise, mutationToDom.
  destruct (getProcedureDef defBlock) as [[t|]|]; reflexivity.
Qed.

Lemma mutateCallers_raises defBlock st :
  getTopBlocks (workspace st) <> [] ->
  mutateCallers defBlock st = (st, Throw).
Proof.
  intros Htop. rewrite mutateCallers_unfold.
  destruct (getProcedureDef defBlock) as [[t|]|]; try reflexivity.
  now rewrite getCallers_without_root_raises.
Qed.

(** C1: [mutateCallers] is to bring the snapshot of every caller in line
    with the definition.  On the workspace with the definition of [foo]
    and one call of it, whose snapshot is out of date, the call raises
    inside [getCallers]: the state is untouched, the caller keeps its old
    snapshot and no event is fired. *)
Theorem mutateCallers_raises_before_any_update :
  let st := ex_state ex_wsFooCalled in
  getCallers "foo" ex_wsFooCalled (Some ex_defFoo) true = Ok [ex_callFoo]
  /\ mutation_ st (id ex_defFoo) = Some "foo(a,b)"
  /\ mutateCallers ex_defFoo st = (st, Throw)
  /\ mutation_ (fst (mutateCallers ex_defFoo st)) (id ex_callFoo)
     = Some "foo(a)"
  /\ FIRE_QUEUE_ (fst (mutateCallers ex_defFoo st)) = [].
Proof. repeat split; reflexivity. Qed.

(** One turn of the loop, with the monad unfolded. *)
Lemma mutateCallers_loop_cons caller rest xmlElement oldRecordUndo st :
  mutateCallers_loop (caller :: rest) xmlElement oldRecordUndo st
  = let st1 := set_mutation (id caller) xmlElement st in
    let oldMutation := mutation_ st (id caller) in
    let newMutation := mutation_ st1 (id caller) in
    if mutation_neq oldMutation newMutation
    then mutateCallers_loop rest xmlElement oldRecordUndo
           (set_recordUndo oldRecordUndo
              (push_event
                 (mkEvent "change" (id caller) (Some "mutation") None
                          oldMutation newMutation (group_ st) false)
                 (set_recordUndo false st1)))
    else mutateCallers_loop rest xmlElement oldRecordUndo st1.
Proof.
  cbn [mutateCallers_loop].
  unfold bindM, mutationToDom, domToMutation, BlockChange, fire, gets, modify,
    ret.
  cbv zeta.
  destruct (mutation_neq _ _); reflexivity.
Qed.

Lemma firedDuring_refl st : firedDuring st st [].
Proof. unfold firedDuring. now rewrite app_nil_r. Qed.

Lemma mutateCallers_loop_flag callers xmlElement :
  forall st,
    recordUndo (fst (mutateCallers_loop callers xmlElement (recordUndo st) st))
    = recordUndo st
    /\ exists evs,
        firedDuring st
          (fst (mutateCallers_loop callers xmlElement (recordUndo st) st)) evs
        /\ Forall (fun e => ev_recordUndo e = false) evs.
Proof.
  induction callers as [|caller rest IH]; intros st.
  - simpl. split; [reflexivity|]. exists []. split; [|constructor].
    apply firedDuring_refl.
  - rewrite mutateCallers_loop_cons. cbv zeta.
    set (st1 := set_mutation (id caller) xmlElement st).
    destruct (mutation_neq (mutation_ st (id caller)) (mutation_ st1 (id caller))).
    + set (e := mkEvent _ _ _ _ _ _ _ _).
      set (st4 := set_recordUndo (recordUndo st) _).
      destruct (IH st4) as [Hr [evs [Hq Hall]]].
      change (recordUndo st4) with (recordUndo st) in Hr, Hq.
      split; [exact Hr|].
      exists (e :: evs). split.
      * unfold firedDuring in *. rewrite Hq. subst st4. simpl.
        now rewrite <- app_assoc.
      * constructor; [reflexivity|exact Hall].
    + destruct (IH st1) as [Hr [evs [Hq Hall]]].
      change (recordUndo st1) with (recordUndo st) in Hr, Hq.
      split; [exact Hr|].
      exists evs. split; [exact Hq|exact Hall].
Qed.

(** One turn of the logged loop, with the monad unfolded. *)
Lemma mutateCallers_loop_logged_cons caller rest xmlElement oldRecordUndo st :
  mutateCallers_loop_logged (caller :: rest) xmlElement oldRecordUndo st
  = let st1 := set_mutation (id caller) xmlElement st in
    let oldMutation := mutation_ st (id caller) in
    let newMutation := mutation_ st1 (id caller) in
    let flag := recordUndo st in
    if mutation_neq oldMutation newMutation
    then let e := mkEvent "change" (id caller) (Some "mutation") None
                          oldMutation newMutation (group_ st) false in
         let run := mutateCallers_loop_logged rest xmlElement oldRecordUndo
                      (set_recordUndo oldRecordUndo
                         (push_event e (set_recordUndo false st1))) in
         (mkRan (CallMutationToDom (id caller)) flag
          :: mkRan (CallDomToMutation (id caller)) flag
          :: mkRan (CallMutationToDom (id caller)) flag
          :: mkRan (WriteRecordUndo false) flag
          :: mkRan (CallFire e) false
          :: mkRan (WriteRecordUndo oldRecordUndo) false
          :: fst run, snd run)
    else let run := mutateCallers_loop_logged rest xmlElement oldRecordUndo
                      st1 in
         (mkRan (CallMutationToDom (id caller)) flag
          :: mkRan (CallDomToMutation (id caller)) flag
          :: mkRan (CallMutationToDom (id caller)) flag
          :: fst run, snd run).
Proof.
  cbn [mutateCallers_loop_logged].
  unfold bindL, logged, silent, retL, mutationToDom, domToMutation,
    BlockChange, fire, gets, modify.
  cbv zeta.
  destruct (mutation_neq _ _); cbn;
    match goal with
    | |- context [mutateCallers_loop_logged rest xmlElement oldRecordUndo ?s] =>
        destruct (mutateCallers_loop_logged rest xmlElement oldRecordUndo s)
          as [log [st' [u|]]]
    end; reflexivity.
Qed.

(** The logged loop is the loop: same state, same outcome; its log is
    bracketed, and the events of the log are the events fired. *)
Lemma mutateCallers_loop_logged_spec callers xmlElement :
  forall st,
    let entry := recordUndo st in
    let run := mutateCallers_loop_logged callers xmlElement entry st in
    snd run = mutateCallers_loop callers xmlElement entry st
    /\ Bracketed entry (fst run)
    /\ firedDuring st (fst (snd run)) (firedIn (fst run))
    /\ Forall (fun e => ev_recordUndo e = false) (firedIn (fst run))
    /\ recordUndo (fst (snd run)) = entry.
Proof.
  induction callers as [|caller rest IH]; intros st; cbv zeta.
  - simpl. repeat split; try constructor. apply firedDuring_refl.
  - rewrite mutateCallers_loop_logged_cons, mutateCallers_loop_cons.
    cbv zeta.
    set (st1 := set_mutation (id caller) xmlElement st).
    destruct (mutation_neq (mutation_ st (id caller)) (mutation_ st1 (id caller))).
    + set (e := mkEvent _ _ _ _ _ _ _ _).
      set (st4 := set_recordUndo (recordUndo st) _).
      destruct (IH st4) as [H1 [H2 [H3 [H4 H5]]]].
      change (recordUndo st4) with (recordUndo st) in H1, H2, H3, H4, H5.
      cbn [fst snd]. split; [exact H1|]. split; [|split; [|split]].
      * do 3 constructor. now constructor.
      * unfold firedDuring in *. rewrite H3. subst st4.
        cbn [firedIn flat_map ran_stmt app FIRE_QUEUE_ set_recordUndo
             push_event].
        now rewrite <- app_assoc.
      * cbn [firedIn flat_map ran_stmt app]. constructor; [reflexivity|].
        exact H4.
      * exact H5.
    + destruct (IH st1) as [H1 [H2 [H3 [H4 H5]]]].
      change (recordUndo st1) with (recordUndo st) in H1, H2, H3, H4, H5.
      cbn [fst snd]. split; [exact H1|]. split; [|split; [|split]].
      * do 3 constructor. exact H2.
      * exact H3.
      * exact H4.
      * exact H5.
Qed.

(** C9: whatever the record-undo flag on entry, every change event that
    [mutateCallers] fires is made with the flag off, and the flag is back
    at its entry value right after each emission: in the log of the loop
    the flag is written only just before an emission, to off, and just
    after it, to the entry value, so that every call into a caller finds
    the entry value; the flag has its entry value when the loop is left.
    This holds of the loop over any array of callers; the whole function,
    whether it returns or raises, fires only events made with the flag off
    and leaves the flag at its entry value. *)
Theorem mutateCallers_keeps_recordUndo :
  (forall callers xmlElement st,
      let entry := recordUndo st in
      let run := mutateCallers_loop_logged callers xmlElement entry st in
      let st' := fst (mutateCallers_loop callers xmlElement entry st) in
      snd run = mutateCallers_loop callers xmlElement entry st
      /\ Bracketed entry (fst run)
      /\ firedDuring st st' (firedIn (fst run))
      /\ Forall (fun e => ev_recordUndo e = false) (firedIn (fst run))
      /\ recordUndo st' = entry)
  /\ (forall defBlock st,
         let st' := fst (mutateCallers defBlock st) in
         recordUndo st' = recordUndo st
         /\ exists evs, firedDuring st st' evs
                        /\ Forall (fun e => ev_recordUndo e = false) evs).
Proof.
  split.
  - intros callers xmlElement st. cbv zeta.
    destruct (mutateCallers_loop_logged_spec callers xmlElement st)
      as [H1 [H2 [H3 [H4 H5]]]].
    rewrite H1 in H3, H5. repeat split; assumption.
  - intros defBlock st. cbv zeta. rewrite mutateCallers_unfold.
    assert (Hnone : recordUndo st = recordUndo st
                    /\ exists evs, firedDuring st st evs
                       /\ Forall (fun e => ev_recordUndo e = false) evs).
    { split; [reflexivity|]. exists []. split; [|constructor].
      apply firedDuring_refl. }
    destruct (getProcedureDef defBlock) as [[t|]|]; try exact Hnone.
    destruct (getCallers (tuple_name t) (workspace st) None false);
      [apply mutateCallers_loop_flag|exact Hnone].
Qed.

(* ================================================================== *)
(** ** deleteProcedureDefCallback *)
(* ================================================================== *)

(** Induction on a block with the property known of its children. *)
Lemma Block_children_ind (P : Block -> Prop) :
  (forall b, Forall P (childBlocks_ b) -> P b) -> forall b, P b.
Proof.
  intros H. fix IH 1. intros [i t f d p r cs]. apply H. simpl.
  induction cs as [|c cs IHcs]; constructor; [apply IH|exact IHcs].
Qed.

Lemma getDescendants_eq b :
  getDescendants b = b :: flat_map getDescendants (childBlocks_ b).
Proof.
  destruct b as [i t f d p r cs]. reflexivity.
Qed.

Lemma withoutBlock_children rid b :
  childBlocks_ (withoutBlock rid b)
  = map (withoutBlock rid)
        (filter (fun c => negb (String.eqb (id c) rid)) (childBlocks_ b)).
Proof.
  destruct b as [i t f d p r cs]. simpl.
  induction cs as [|c cs IH]; simpl; [reflexivity|].
  destruct (String.eqb (id c) rid); simpl; congruence.
Qed.

Lemma withoutBlock_id rid b : id (withoutBlock rid b) = id b.
Proof. now destruct b. Qed.

(** Pruning keeps ids, and leaves no block of the pruned id. *)
Lemma withoutBlock_descendants rid b :
  id b <> rid ->
  forall x, In x (getDescendants (withoutBlock rid b)) ->
            id x <> rid /\ In (id x) (map id (getDescendants b)).
Proof.
  induction b as [b IH] using Block_children_ind. intros Hb x Hx.
  rewrite getDescendants_eq in Hx. rewrite (getDescendants_eq b).
  destruct Hx as [<-|Hx].
  - rewrite withoutBlock_id. split; [exact Hb|]. simpl. now left.
  - rewrite withoutBlock_children in Hx.
    apply in_flat_map in Hx. destruct Hx as [c' [Hc' Hx]].
    apply in_map_iff in Hc'. destruct Hc' as [c [<- Hc]].
    apply filter_In in Hc. destruct Hc as [Hc Hne].
    apply negb_true_iff in Hne. apply String.eqb_neq in Hne.
    rewrite Forall_forall in IH.
    destruct (IH c Hc Hne x Hx) as [H1 H2]. split; [exact H1|].
    simpl. right. apply in_map_iff in H2. destruct H2 as [y [Hy Hin]].
    apply in_map_iff. exists y. split; [exact Hy|].
    apply in_flat_map. now exists c.
Qed.

Lemma withoutTop_In rid tops t :
  In t (withoutTop rid tops) ->
  exists t0, In t0 tops /\ id t0 <> rid /\ t = withoutBlock rid t0.
Proof.
  induction tops as [|b rest IH]; simpl; [contradiction|].
  destruct (String.eqb_spec (id b) rid) as [He|Hne].
  - intros Hin. destruct (IH Hin) as [t0 [H1 H2]]. exists t0. tauto.
  - intros [<-|Hin].
    + exists b. tauto.
    + destruct (IH Hin) as [t0 [H1 H2]]. exists t0. tauto.
Qed.

(** Two different stacks of a workspace with distinct ids share no id. *)
Lemma stacks_share_no_id (tops : list Block) (t1 t2 : Block) (i : string) :
  NoDup (map id (flat_map getDescendants tops)) ->
  In t1 tops -> In t2 tops -> id t1 <> id t2 ->
  In i (map id (getDescendants t1)) -> In i (map id (getDescendants t2)) ->
  False.
Proof.
  induction tops as [|t rest IH]; simpl; [contradiction|].
  rewrite map_app. intros Hnd H1 H2 Hne Hi1 Hi2.
  assert (Hdisj : forall a, In a (map id (getDescendants t)) ->
                            In a (map id (flat_map getDescendants rest)) ->
                            False).
  { clear - Hnd. induction (map id (getDescendants t)) as [|a l IHl];
      simpl in *; [contradiction|].
    inversion Hnd as [|? ? Hnotin Hnd']; subst.
    intros b [<-|Hb] Hr.
    - apply Hnotin. apply in_or_app. now right.
    - now apply (IHl Hnd' b). }
  assert (Hrest : forall u, In u rest ->
                            forall a, In a (map id (getDescendants u)) ->
                                      In a (map id (flat_map getDescendants rest))).
  { intros u Hu a Ha. apply in_map_iff in Ha. destruct Ha as [y [<- Hy]].
    apply in_map. apply in_flat_map. now exists u. }
  destruct H1 as [<-|H1], H2 as [<-|H2].
  - congruence.
  - apply (Hdisj i Hi1). now apply (Hrest t2).
  - apply (Hdisj i Hi2). now apply (Hrest t1).
  - apply NoDup_app_remove_l in Hnd. now apply IH.
Qed.

(** [deleteProcedureDefCallback] with the guard unfolded. *)
Lemma deleteProcedureDefCallback_unfold procCode definitionRoot st :
  deleteProcedureDefCallback procCode definitionRoot st
  = match getCallers procCode (workspace st) (Some definitionRoot) false with
    | Ok [] =>
        (setGroup true ;; dispose definitionRoot ;; setGroup false ;;
         ret true)%M st
    | Ok (_ :: _) => (st, Ok false)
    | Throw => (st, Throw)
    end.
Proof.
  unfold deleteProcedureDefCallback, bindM at 1 2. unfold gets, lift.
  destruct (getCallers _ _ _ _) as [[|c callers]|]; reflexivity.
Qed.

(** C4: [deleteProcedureDefCallback] computes the callers outside the
    stack of the definition root.  If there are any it returns [false] and
    leaves the state as it was.  Otherwise it returns [true], the stack of
    the definition root has left the workspace, the one delete event
    carries the group opened for it, and the group is closed again. *)
Theorem deleteProcedureDefCallback_guards procCode definitionRoot st :
  exists callers,
    getCallers procCode (workspace st) (Some definitionRoot) false = Ok callers
    /\ match callers with
       | _ :: _ =>
           deleteProcedureDefCallback procCode definitionRoot st
           = (st, Ok false)
       | [] =>
           exists st' e,
           deleteProcedureDefCallback procCode definitionRoot st
           = (st', Ok true)
           /\ getTopBlocks (workspace st')
              = withoutTop (id definitionRoot) (getTopBlocks (workspace st))
           /\ ~ In (id definitionRoot) (blockIds (workspace st'))
           /\ (In definitionRoot (getTopBlocks (workspace st)) ->
               NoDup (blockIds (workspace st)) ->
               forall d, In d (getDescendants definitionRoot) ->
                         ~ In (id d) (blockIds (workspace st')))
           /\ firedDuring st st' [e]
           /\ ev_type e = "delete"
           /\ ev_blockId e = id definitionRoot
           /\ ev_group e = GroupId (nextUid st)
           /\ group_ st' = NoGroup
           /\ recordUndo st' = recordUndo st
           /\ mutation_ st' = mutation_ st
           /\ renameCalls st' = renameCalls st
       end.
Proof.
  rewrite deleteProcedureDefCallback_unfold, getCallers_filter.
  eexists. split; [reflexivity|].
  destruct (filter _ _) as [|c callers]; [|reflexivity].
  cbn. eexists. eexists. split; [reflexivity|]. cbn.
  assert (Hgone : forall x,
             In x (flat_map getDescendants
                     (withoutTop (id definitionRoot)
                                 (getTopBlocks (workspace st)))) ->
             exists t0, In t0 (getTopBlocks (workspace st))
                        /\ id t0 <> id definitionRoot
                        /\ id x <> id definitionRoot
                        /\ In (id x) (map id (getDescendants t0))).
  { intros x Hx. apply in_flat_map in Hx. destruct Hx as [t [Ht Hx]].
    apply withoutTop_In in Ht. destruct Ht as [t0 [Ht0 [Hne ->]]].
    destruct (@withoutBlock_descendants _ _ Hne x Hx) as [H1 H2].
    exists t0. tauto. }
  repeat split; try reflexivity.
  - unfold blockIds. cbn. intros Hin. apply in_map_iff in Hin.
    destruct Hin as [x [Hid Hx]].
    destruct (Hgone x Hx) as [t0 [_ [_ [Hne _]]]]. congruence.
  - intros Hroot Hnd d Hd. unfold blockIds. cbn. intros Hin.
    apply in_map_iff in Hin. destruct Hin as [x [Hid Hx]].
    destruct (Hgone x Hx) as [t0 [Ht0 [Hne [_ Hin0]]]].
    apply (@stacks_share_no_id (getTopBlocks (workspace st)) t0 definitionRoot
                               (id d)); try assumption.
    + now rewrite <- Hid.
    + now apply in_map.
Qed.

(** A workspace with a caller refuses the deletion; without one the
    definition leaves, whatever was below it. *)
Lemma deleteProcedureDefCallback_guards_witness :
  deleteProcedureDefCallback "foo" ex_defFoo (ex_state ex_wsFooCalled)
  = (ex_state ex_wsFooCalled, Ok false)
  /\ exists st',
      deleteProcedureDefCallback "foo" ex_defFoo (ex_state ex_wsFoo)
      = (st', Ok true)
      /\ ~ In (id ex_defFoo) (blockIds (workspace st')).
Proof.
  split.
  - destruct (deleteProcedureDefCallback_guards
                "foo" ex_defFoo (ex_state ex_wsFooCalled)) as [callers [Hc H]].
    vm_compute in Hc. injection Hc as <-. exact H.
  - destruct (deleteProcedureDefCallback_guards
                "foo" ex_defFoo (ex_state ex_wsFoo)) as [callers [Hc H]].
    vm_compute in Hc. injection Hc as <-.
    destruct H as [st' [e [Hrun [_ [_ [Hall _]]]]]].
    exists st'. split; [exact Hrun|].
    apply Hall.
    + simpl. now left.
    + unfold blockIds. simpl. repeat constructor. intros [].
    + simpl. now left.
Defined.

(* ================================================================== *)
(** ** rename *)
(* ================================================================== *)

Lemma trimStart_padding s :
  exists pre, s = (pre ++ trimStart s)%string /\ allSpace pre = true.
Proof.
  induction s as [|c s [pre [IH1 IH2]]]; simpl.
  - now exists EmptyString.
  - destruct (isSpace c) eqn:Hc.
    + exists (String c pre). simpl. rewrite Hc, IH2. split; [|reflexivity].
      now rewrite <- IH1.
    + now exists EmptyString.
Qed.

Lemma trimStart_firstChar s c :
  firstChar (trimStart s) = Some c -> isSpace c = false.
Proof.
  induction s as [|a s IH]; simpl; [discriminate|].
  destruct (isSpace a) eqn:Ha; [exact IH|].
  simpl. intros [= <-]. exact Ha.
Qed.

Lemma trimEnd_padding s :
  exists suf, s = (trimEnd s ++ suf)%string /\ allSpace suf = true.
Proof.
  induction s as [|c s [suf [IH1 IH2]]].
  - now exists EmptyString.
  - cbn [trimEnd]. destruct (allSpace (String c s)) eqn:Hall.
    + now exists (String c s).
    + exists suf. split; [|exact IH2]. simpl. now rewrite <- IH1.
Qed.

Lemma trimEnd_empty s : trimEnd s = EmptyString -> allSpace s = true.
Proof.
  destruct s as [|c s]; [reflexivity|]. cbn [trimEnd].
  destruct (allSpace (String c s)); [reflexivity|discriminate].
Qed.

Lemma trimEnd_lastChar s c :
  lastChar (trimEnd s) = Some c -> isSpace c = false.
Proof.
  induction s as [|a s IH]; [discriminate|]. cbn [trimEnd].
  destruct (allSpace (String a s)) eqn:Hall; [discriminate|].
  cbn [lastChar]. destruct (trimEnd s) as [|b t] eqn:Ht.
  - intros [= <-]. apply trimEnd_empty in Ht. simpl in Hall.
    rewrite Ht, andb_true_r in Hall. exact Hall.
  - exact IH.
Qed.

Lemma trimEnd_firstChar s c :
  firstChar s = Some c -> isSpace c = false ->
  firstChar (trimEnd s) = Some c.
Proof.
  destruct s as [|a s]; [discriminate|]. simpl. intros [= <-] Hc.
  now rewrite Hc.
Qed.

Lemma append_assoc (a b c : string) :
  ((a ++ b) ++ c = a ++ (b ++ c))%string.
Proof. induction a as [|x a IH]; simpl; [reflexivity|now rewrite IH]. Qed.

(** What the regular expression of [rename] removes. *)
Lemma trim_spec s : paddingOf s (trim s) /\ trimmed (trim s).
Proof.
  unfold trim. split.
  - destruct (trimStart_padding s) as [pre [H1 H2]].
    destruct (trimEnd_padding (trimStart s)) as [suf [H3 H4]].
    exists pre, suf. repeat split; try assumption.
    now rewrite <- H3.
  - split.
    + intros c Hc.
      destruct (trimStart s) as [|a t] eqn:Ht; [discriminate|].
      assert (Ha : isSpace a = false)
        by (apply (trimStart_firstChar s); now rewrite Ht).
      rewrite (@trimEnd_firstChar (String a t) a eq_refl Ha) in Hc.
      now injection Hc as <-.
    + apply trimEnd_lastChar.
Qed.

Lemma rename_loop_spec oldName legalName blocks :
  forall st,
  exists st',
    rename_loop blocks oldName legalName st = (st', Ok tt)
    /\ renameCalls st'
       = renameCalls st ++ renameCallsFor blocks oldName legalName
    /\ sameButRenameCalls st st'.
Proof.
  unfold renameCallsFor, sameButRenameCalls.
  induction blocks as [|b rest IH]; intros st.
  - exists st. simpl. rewrite app_nil_r. unfold ret. tauto.
  - cbn [rename_loop filter]. unfold bindM.
    destruct (renameProcedure b).
    + unfold call_renameProcedure, modify.
      destruct (IH (push_renameCall (mkRenameCall (id b) oldName legalName) st))
        as [st' [H1 [H2 H3]]].
      exists st'. rewrite H1. split; [reflexivity|]. split.
      * rewrite H2. simpl. now rewrite <- app_assoc.
      * exact H3.
    + unfold ret. destruct (IH st) as [st' [H1 [H2 H3]]].
      exists st'. rewrite H1. tauto.
Qed.

(** [rename] with the monad unfolded. *)
Lemma rename_unfold fuel name sourceBlock_ text_ st :
  rename fuel name sourceBlock_ text_ st
  = match findLegalName fuel (trim name) sourceBlock_ (workspace st) with
    | None => None
    | Some Throw => Some (st, Throw)
    | Some (Ok legalName) =>
        if negb (String.eqb text_ (trim name))
           && negb (String.eqb text_ legalName)
        then match rename_loop (getAllBlocks (workspace st)) text_ legalName st
             with
             | (st', Ok _) => Some (st', Ok legalName)
             | (st', Throw) => Some (st', Throw)
             end
        else Some (st, Ok legalName)
    end.
Proof.
  unfold rename. destruct (findLegalName _ _ _ _) as [[legalName|]|];
    try reflexivity.
  unfold bindM. destruct (negb _ && negb _); [|reflexivity].
  destruct (rename_loop _ _ _ _) as [st' [u|]]; reflexivity.
Qed.

(** The guard of [rename] at work: with a definition [foo2] in the
    workspace, renaming [foo] to [foo] is accepted as [foo2], which differs
    from the old name, and no block is told, though one has
    [renameProcedure], because the stripped name is the old name. *)
Lemma rename_tells_no_block_when_name_is_old :
  exists st',
    rename 2 "foo" ex_defFoo "foo" (ex_state ex_wsFooFoo2)
    = Some (st', Ok "foo2")
    /\ "foo2" <> "foo"
    /\ renameCalls st' = []
    /\ renameCallsFor (getAllBlocks ex_wsFooFoo2) "foo" "foo2"
       = [mkRenameCall "call-foo" "foo" "foo2"].
Proof.
  eexists. split; [reflexivity|]. split; [discriminate|].
  split; reflexivity.
Qed.

Lemma ex_wsFooCalled_all_names_collide name :
  isNameUsed name ex_wsFooCalled (Some ex_defFoo) = Ok true.
Proof. reflexivity. Qed.

(** C7: renaming a procedure to the name it has is to return that name and
    to tell no block.  On the workspace with the definition of [foo], with
    or without a call of it, [rename] of [foo] to [foo] never returns:
    [findLegalName] does not leave its loop. *)
Theorem rename_to_own_name_never_returns :
  trim "foo" = "foo"
  /\ (forall fuel, rename fuel "foo" ex_defFoo "foo" (ex_state ex_wsFoo) = None)
  /\ (forall fuel,
         rename fuel "foo" ex_defFoo "foo" (ex_state ex_wsFooCalled) = None).
Proof.
  split; [reflexivity|]. split; intros fuel; rewrite rename_unfold;
    unfold findLegalName; simpl isInFlyout; cbv iota.
  - now rewrite (findLegalName_loop_stuck _ _ ex_wsFoo_all_names_collide).
  - now rewrite (findLegalName_loop_stuck _ _ ex_wsFooCalled_all_names_collide).
Qed.

(** C6: [rename] is to return the name accepted for the stripped name and,
    when it differs from the old name, to tell every block that has
    [renameProcedure].  On the workspace with the definition of [foo] and
    a call of it, renaming [foo] to [bar] never returns: [findLegalName]
    does not leave its loop, no name is accepted and the call block, which
    was to be told, is not. *)
Theorem rename_to_new_name_never_returns :
  trim " bar " = "bar"
  /\ "bar" <> "foo"
  /\ renameCallsFor (getAllBlocks ex_wsFooCalled) "foo" "bar"
     = [mkRenameCall "call-foo" "foo" "bar"]
  /\ forall fuel,
      rename fuel " bar " ex_defFoo "foo" (ex_state ex_wsFooCalled) = None.
Proof.
  split; [reflexivity|]. split; [discriminate|]. split; [reflexivity|].
  intros fuel. rewrite rename_unfold.
  unfold findLegalName. simpl isInFlyout. cbv iota.
  now rewrite (findLegalName_loop_stuck _ _ ex_wsFooCalled_all_names_collide).
Qed.

(* ================================================================== *)
(** ** allProcedures *)
(* ================================================================== *)

Section SortFacts.

Variable A : Type.
Variable cmp : A -> A -> Z.

Lemma insert_perm x l : Permutation (insert cmp x l) (x :: l).
Proof.
  induction l as [|y l IH]; simpl; [reflexivity|].
  destruct (cmp x y <=? 0)%Z; [reflexivity|].
  rewrite IH. apply perm_swap.
Qed.

Lemma sort_perm l : Permutation (sort cmp l) l.
Proof.
  induction l as [|x l IH]; simpl; [reflexivity|].
  rewrite insert_perm. now constructor.
Qed.

(** [insert] does not carry [x] over an element of the class [p] when the
    elements of [p] compare at most equal to each other. *)
Lemma insert_filter (p : A -> bool) x l :
  (forall y, p x = true -> p y = true -> (cmp x y <= 0)%Z) ->
  filter p (insert cmp x l) = filter p (x :: l).
Proof.
  intros Hp. induction l as [|y l IH]; [reflexivity|].
  cbn [insert]. destruct (cmp x y <=? 0)%Z eqn:Hxy; [reflexivity|].
  apply Z.leb_gt in Hxy.
  cbn [filter] in *. rewrite IH.
  destruct (p y) eqn:Hy; [|reflexivity].
  destruct (p x) eqn:Hx; [|reflexivity].
  specialize (Hp y eq_refl Hy). lia.
Qed.

Lemma sort_filter (p : A -> bool) l :
  (forall x y, p x = true -> p y = true -> (cmp x y <= 0)%Z) ->
  filter p (sort cmp l) = filter p l.
Proof.
  intros Hp. induction l as [|x l IH]; [reflexivity|].
  cbn [sort fold_right]. fold (sort cmp l).
  rewrite insert_filter by (intros y; apply Hp).
  cbn [filter]. now rewrite IH.
Qed.

Hypothesis cmp_total : forall a b, (0 < cmp a b)%Z -> (cmp b a <= 0)%Z.
Hypothesis cmp_trans :
  forall a b c, (cmp a b <= 0)%Z -> (cmp b c <= 0)%Z -> (cmp a c <= 0)%Z.

Lemma insert_sorted x l :
  StronglySorted (fun a b => (cmp a b <= 0)%Z) l ->
  StronglySorted (fun a b => (cmp a b <= 0)%Z) (insert cmp x l).
Proof.
  induction l as [|y l IH]; intros Hs; simpl.
  - constructor; constructor.
  - destruct (cmp x y <=? 0)%Z eqn:Hxy.
    + apply Z.leb_le in Hxy. constructor; [exact Hs|].
      constructor; [exact Hxy|].
      inversion Hs as [|? ? _ Hall]; subst.
      eapply Forall_impl; [|exact Hall]. intros z Hz.
      simpl in Hz. eapply cmp_trans; eassumption.
    + apply Z.leb_gt in Hxy. inversion Hs as [|? ? Hs' Hall]; subst.
      constructor; [now apply IH|].
      rewrite Forall_forall in *. intros z Hz.
      apply (Permutation_in _ (insert_perm x l)) in Hz.
      destruct Hz as [<-|Hz]; [apply cmp_total; lia|now apply Hall].
Qed.

Lemma sort_sorted l : StronglySorted (fun a b => (cmp a b <= 0)%Z) (sort cmp l).
Proof.
  induction l as [|x l IH]; simpl; [constructor|now apply insert_sorted].
Qed.

End SortFacts.

(** The two arrays after the loop of [allProcedures]. *)
Lemma allProcedures_loop_spec blocks :
  forall accR accN,
    allProcedures_loop blocks accR accN
    = Ok (accR ++ filter tuple_hasReturn (definedTuples blocks),
          accN ++ filter noReturn (definedTuples blocks)).
Proof.
  unfold noReturn.
  induction blocks as [|b rest IH]; intros accR accN; simpl.
  - now rewrite !app_nil_r.
  - destruct (getProcedureDef b) as [[t|]|]; simpl; try apply IH.
    destruct (tuple_hasReturn t) eqn:Ht; simpl; rewrite IH, <- app_assoc;
      reflexivity.
Qed.

Section AllProcedures.

Variable localeCompare : string -> string -> Z.

(** The collation is a consistent comparison: a string compares equal to
    itself, and "at most equal" is total and transitive. *)
Hypothesis localeCompare_refl : forall s, localeCompare s s = 0%Z.
Hypothesis localeCompare_total :
  forall a b, (0 < localeCompare a b)%Z -> (localeCompare b a <= 0)%Z.
Hypothesis localeCompare_trans :
  forall a b c, (localeCompare a b <= 0)%Z -> (localeCompare b c <= 0)%Z ->
                (localeCompare a c <= 0)%Z.

Lemma hasName_same_class name ta tb :
  hasName name ta = true -> hasName name tb = true ->
  (procTupleComparator_ localeCompare ta tb <= 0)%Z.
Proof.
  unfold hasName, Names_equals, procTupleComparator_. intros Ha Hb.
  apply String.eqb_eq in Ha, Hb. rewrite Ha, Hb, localeCompare_refl. lia.
Qed.

(** C8: [allProcedures] returns the tuples of the blocks that describe
    themselves as definitions, those without a return value first and
    those with one second; each array is sorted by name without regard to
    case, and tuples whose names are equal without regard to case keep the
    order of their blocks.  The function reads the workspace and writes
    nothing. *)
Theorem allProcedures_sorted_stable root :
  let tuples := definedTuples (getAllBlocks root) in
  exists proceduresNoReturn proceduresReturn,
    allProcedures localeCompare root
    = Ok (proceduresNoReturn, proceduresReturn)
    /\ Permutation proceduresNoReturn (filter noReturn tuples)
    /\ Permutation proceduresReturn (filter tuple_hasReturn tuples)
    /\ StronglySorted (nameLe localeCompare) proceduresNoReturn
    /\ StronglySorted (nameLe localeCompare) proceduresReturn
    /\ (forall name,
           filter (hasName name) proceduresNoReturn
           = filter (hasName name) (filter noReturn tuples))
    /\ (forall name,
           filter (hasName name) proceduresReturn
           = filter (hasName name) (filter tuple_hasReturn tuples)).
Proof.
  intros tuples. unfold allProcedures.
  rewrite allProcedures_loop_spec. cbn [bind app].
  fold tuples. eexists. eexists. split; [reflexivity|].
  assert (Htot : forall a b,
             (0 < procTupleComparator_ localeCompare a b)%Z ->
             (procTupleComparator_ localeCompare b a <= 0)%Z)
    by (intros a b; apply localeCompare_total).
  assert (Htr : forall a b c,
             (procTupleComparator_ localeCompare a b <= 0)%Z ->
             (procTupleComparator_ localeCompare b c <= 0)%Z ->
             (procTupleComparator_ localeCompare a c <= 0)%Z)
    by (intros a b c; apply localeCompare_trans).
  repeat split.
  - apply sort_perm.
  - apply sort_perm.
  - apply (@sort_sorted _ _ Htot Htr).
  - apply (@sort_sorted _ _ Htot Htr).
  - intros name. apply sort_filter. apply hasName_same_class.
  - intros name. apply sort_filter. apply hasName_same_class.
Qed.

End AllProcedures.

Lemma codeUnitCompare_le a b :
  (codeUnitCompare a b <= 0)%Z <-> a = b \/ String_as_OT.lt a b.
Proof.
  unfold codeUnitCompare.
  change (String.compare a b) with (String_as_OT.compare a b).
  destruct (String_as_OT.compare_spec a b) as [H|H|H].
  - split; [now left|lia].
  - split; [now right|lia].
  - split; [lia|].
    intros [->|Hlt].
    + now apply (StrictOrder_Irreflexive b) in H.
    + exfalso. apply (StrictOrder_Irreflexive a).
      now apply (StrictOrder_Transitive a b a).
Qed.

Lemma codeUnitCompare_refl s : codeUnitCompare s s = 0%Z.
Proof.
  unfold codeUnitCompare.
  change (String.compare s s) with (String_as_OT.compare s s).
  destruct (String_as_OT.compare_spec s s) as [H|H|H]; [reflexivity| |];
    now apply (StrictOrder_Irreflexive s) in H.
Qed.

Lemma codeUnitCompare_total a b :
  (0 < codeUnitCompare a b)%Z -> (codeUnitCompare b a <= 0)%Z.
Proof.
  unfold codeUnitCompare. rewrite (String.compare_antisym b a).
  destruct (String.compare a b); simpl; lia.
Qed.

Lemma codeUnitCompare_trans a b c :
  (codeUnitCompare a b <= 0)%Z -> (codeUnitCompare b c <= 0)%Z ->
  (codeUnitCompare a c <= 0)%Z.
Proof.
  rewrite !codeUnitCompare_le. intros [->|Hab] [->|Hbc]; try tauto.
  right. now apply (StrictOrder_Transitive a b c).
Qed.

(** Under code-unit order the four definitions of [ex_wsJump] come out as
    [apple], [jump], [JUMP] without a return value and [Add] with one. *)
Lemma allProcedures_sorted_stable_witness :
  exists proceduresNoReturn proceduresReturn,
    allProcedures codeUnitCompare ex_wsJump
    = Ok (proceduresNoReturn, proceduresReturn)
    /\ StronglySorted (nameLe codeUnitCompare) proceduresNoReturn
    /\ filter (hasName "jump") proceduresNoReturn
       = [mkTuple "jump" [] false; mkTuple "JUMP" [] false]
    /\ allProcedures codeUnitCompare ex_wsJump
       = Ok ([mkTuple "apple" [] false; mkTuple "jump" [] false;
              mkTuple "JUMP" [] false],
             [mkTuple "Add" [] true]).
Proof.
  destruct (@allProcedures_sorted_stable
              codeUnitCompare codeUnitCompare_refl codeUnitCompare_total
              codeUnitCompare_trans ex_wsJump)
    as [n [r [H1 [_ [_ [H4 [_ [H6 _]]]]]]]].
  exists n, r. split; [exact H1|]. split; [exact H4|].
  split; [rewrite H6; reflexivity|reflexivity].
Defined.

(* ================================================================== *)
(** ** The undo reducer *)
(* ================================================================== *)

Section UndoFacts.

Variable Snapshot : Type.

Lemma slice0_upto_pointer (l : list Snapshot) (p : Z) :
  (-1 <= p < Z.of_nat (length l))%Z ->
  Undo.slice0 l (p + 1) = firstn (Z.to_nat (p + 1)) l
  /\ length (Undo.slice0 l (p + 1)) = Z.to_nat (p + 1).
Proof.
  intros Hp. unfold Undo.slice0.
  destruct (Z.ltb_spec (p + 1) 0); [lia|].
  rewrite Z.min_l by lia. split; [reflexivity|].
  rewrite length_firstn. lia.
Qed.

Lemma undo_step_in_range (s : Undo.UndoState Snapshot) a :
  Undo.pointerInRange s -> a <> Undo.SNAPSHOT (Undo.Array []) ->
  Undo.pointerInRange (fst (Undo.reducer (Some s) a)).
Proof.
  unfold Undo.pointerInRange. intros Hs Ha.
  destruct a as [| |[|v|vs]| |]; simpl.
  - destruct (Z.leb_spec (Undo.pointer s) 0); simpl; lia.
  - destruct (Z.leb_spec (Undo.pointer s) (-1)); simpl; [lia|].
    destruct (Z.eqb_spec (Undo.pointer s)
                         (Z.of_nat (length (Undo.stack s)) - 1)); simpl; lia.
  - exact Hs.
  - destruct (slice0_upto_pointer _ Hs) as [_ Hlen].
    rewrite length_app, Hlen. simpl. lia.
  - destruct (slice0_upto_pointer _ Hs) as [_ Hlen].
    rewrite length_app, Hlen.
    destruct vs as [|v vs]; [congruence|]. simpl. lia.
  - lia.
  - exact Hs.
Qed.

(** X1: started from the initial state, the reducer keeps the pointer at
    [-1] or at the index of a snapshot, whatever actions are dispatched,
    as long as no snapshot is an empty array; one empty array as the first
    snapshot leaves the pointer at 0 over an empty stack. *)
Theorem undo_pointer_stays_in_range (actions : list (Undo.Action Snapshot)) :
  Forall (fun a => a <> Undo.SNAPSHOT (Undo.Array [])) actions ->
  Undo.pointerInRange (Undo.dispatchAll Undo.initialState actions)
  /\ Undo.reducer None (Undo.SNAPSHOT (Undo.Array []))
     = (Undo.mkUndoState (@nil Snapshot) 0, []).
Proof.
  intros Hall. split; [|reflexivity].
  assert (Hinit : Undo.pointerInRange (@Undo.initialState Snapshot))
    by (unfold Undo.pointerInRange; simpl; lia).
  revert Hinit. unfold Undo.dispatchAll.
  generalize (@Undo.initialState Snapshot) as s.
  induction Hall as [|a actions Ha _ IH]; intros s Hs; simpl; [exact Hs|].
  apply IH. now apply undo_step_in_range.
Qed.

(** X2: where an undo is possible, a redo right after it gives the state
    back, without a warning. *)
Theorem undo_then_redo (s : Undo.UndoState Snapshot) :
  Undo.pointerInRange s -> (0 < Undo.pointer s)%Z ->
  Undo.reducer (Some (fst (Undo.reducer (Some s) Undo.undo))) Undo.redo
  = (s, []).
Proof.
  unfold Undo.pointerInRange. destruct s as [st p]. simpl. intros Hs Hp.
  destruct (Z.leb_spec p 0); [lia|]. simpl.
  destruct (Z.leb_spec (p - 1) (-1)); [lia|].
  destruct (Z.eqb_spec (p - 1) (Z.of_nat (length st) - 1)); [lia|]. simpl.
  repeat f_equal. lia.
Qed.

(** X3: where a redo is possible, an undo right after it gives the state
    back, without a warning. *)
Theorem redo_then_undo (s : Undo.UndoState Snapshot) :
  (0 <= Undo.pointer s < Z.of_nat (length (Undo.stack s)) - 1)%Z ->
  Undo.reducer (Some (fst (Undo.reducer (Some s) Undo.redo))) Undo.undo
  = (s, []).
Proof.
  destruct s as [st p]. simpl. intros Hp.
  destruct (Z.leb_spec p (-1)); [lia|].
  destruct (Z.eqb_spec p (Z.of_nat (length st) - 1)); [lia|]. simpl.
  destruct (Z.leb_spec (p + 1) 0); [lia|].
  repeat f_equal. lia.
Qed.

(** X4: with the pointer at [-1] or at a snapshot of the stack, a
    snapshot of a value that is neither falsy nor an array drops what
    could be redone: afterwards the stack is the part up to the pointer
    followed by the new snapshot, the pointer is at the new snapshot, and
    a redo is refused with a warning. *)
Theorem snapshot_drops_redo (s : Undo.UndoState Snapshot) (v : Snapshot) :
  Undo.pointerInRange s ->
  let s' := fst (Undo.reducer (Some s) (Undo.undoSnapshot (Undo.Value v))) in
  Undo.stack s' = firstn (Z.to_nat (Undo.pointer s + 1)) (Undo.stack s) ++ [v]
  /\ Z.of_nat (length (Undo.stack s')) = (Undo.pointer s + 2)%Z
  /\ Undo.current s' = Some v
  /\ Undo.reducer (Some s') Undo.redo
     = (s', ["Can't redo, redo stack is empty"]).
Proof.
  intros Hs. destruct (slice0_upto_pointer _ Hs) as [Hsl Hlen].
  unfold Undo.pointerInRange in Hs. cbn.
  assert (Hl : Z.of_nat (length (Undo.slice0 (Undo.stack s)
                                             (Undo.pointer s + 1) ++ [v]))
               = (Undo.pointer s + 2)%Z)
    by (rewrite length_app, Hlen; simpl; lia).
  split; [now rewrite Hsl|]. split; [exact Hl|]. split.
  - unfold Undo.current. cbn.
    destruct (Z.ltb_spec (Undo.pointer s + 1) 0); [lia|].
    rewrite nth_error_app2 by lia. rewrite Hlen, Nat.sub_diag. reflexivity.
  - rewrite Hl.
    destruct (Z.leb_spec (Undo.pointer s + 1) (-1)); [lia|].
    destruct (Z.eqb_spec (Undo.pointer s + 1) (Undo.pointer s + 2 - 1));
      [reflexivity|lia].
Qed.

(** X5: with the pointer at [-1] or at a snapshot of the stack, an undo
    right after a snapshot of a value that is neither falsy nor an array
    goes back to the snapshot that was current before, and a redo from
    there returns to the new one; when there was none before, the undo is
    refused: the first snapshot cannot be undone. *)
Theorem undo_after_snapshot (s : Undo.UndoState Snapshot) (v : Snapshot) :
  Undo.pointerInRange s ->
  let s1 := fst (Undo.reducer (Some s) (Undo.undoSnapshot (Undo.Value v))) in
  let s2 := fst (Undo.reducer (Some s1) Undo.undo) in
  if (Undo.pointer s <? 0)%Z
  then Undo.reducer (Some s1) Undo.undo
       = (s1, ["Can't undo, undo stack is empty"])
  else Undo.current s2 = Undo.current s
       /\ Undo.pointer s2 = Undo.pointer s
       /\ Undo.reducer (Some s2) Undo.redo = (s1, []).
Proof.
  intros Hs. destruct (slice0_upto_pointer _ Hs) as [Hsl Hlen].
  unfold Undo.pointerInRange in Hs. cbn.
  destruct (Z.ltb_spec (Undo.pointer s) 0) as [Hneg|Hpos].
  - destruct (Z.leb_spec (Undo.pointer s + 1) 0); [reflexivity|lia].
  - destruct (Z.leb_spec (Undo.pointer s + 1) 0); [lia|]. cbn.
    assert (Hp : (Undo.pointer s + 1 - 1 = Undo.pointer s)%Z) by lia.
    split; [|split; [exact Hp|]].
    + unfold Undo.current. cbn. rewrite Hp.
      destruct (Z.ltb_spec (Undo.pointer s) 0); [lia|].
      rewrite nth_error_app1 by lia.
      rewrite Hsl, nth_error_firstn.
      destruct (Nat.ltb_spec (Z.to_nat (Undo.pointer s))
                             (Z.to_nat (Undo.pointer s + 1)));
        [reflexivity|lia].
    + rewrite Hp, length_app, Hlen. simpl.
      destruct (Z.leb_spec (Undo.pointer s) (-1)); [lia|].
      destruct (Z.eqb_spec (Undo.pointer s)
                  (Z.of_nat (Z.to_nat (Undo.pointer s + 1) + 1) - 1));
        [lia|reflexivity].
Qed.

(** X6: once the pointer is at a snapshot, undo and redo, in any number
    and order, leave the stack as it is and the pointer at one of its
    snapshots. *)
Theorem undo_redo_keep_stack (s : Undo.UndoState Snapshot)
        (actions : list (Undo.Action Snapshot)) :
  Forall (fun a => a = Undo.undo \/ a = Undo.redo) actions ->
  (0 <= Undo.pointer s < Z.of_nat (length (Undo.stack s)))%Z ->
  let s' := Undo.dispatchAll s actions in
  Undo.stack s' = Undo.stack s
  /\ (0 <= Undo.pointer s' < Z.of_nat (length (Undo.stack s)))%Z.
Proof.
  intros Hall. revert s. unfold Undo.dispatchAll.
  induction Hall as [|a actions Ha _ IH]; intros s Hs; simpl;
    [split; [reflexivity|exact Hs]|].
  assert (Hstep : Undo.stack (fst (Undo.reducer (Some s) a)) = Undo.stack s
                  /\ (0 <= Undo.pointer (fst (Undo.reducer (Some s) a))
                      < Z.of_nat (length (Undo.stack s)))%Z).
  { destruct Ha as [->| ->]; simpl.
    - destruct (Z.leb_spec (Undo.pointer s) 0); simpl; split;
        try reflexivity; lia.
    - destruct (Z.leb_spec (Undo.pointer s) (-1)); simpl;
        [split; [reflexivity|lia]|].
      destruct (Z.eqb_spec (Undo.pointer s)
                           (Z.of_nat (length (Undo.stack s)) - 1)); simpl;
        split; try reflexivity; lia. }
  destruct Hstep as [Hst Hp].
  specialize (IH (fst (Undo.reducer (Some s) a))).
  cbv zeta in IH. rewrite Hst in IH. apply IH. exact Hp.
Qed.

End UndoFacts.

Lemma undo_pointer_stays_in_range_witness :
  Undo.pointerInRange
    (Undo.dispatchAll Undo.initialState
       [Undo.undoSnapshot (Undo.Value "a"); Undo.undoSnapshot (Undo.Value "b");
        Undo.undo; Undo.undoSnapshot (Undo.Array ["c"; "d"]); Undo.redo]).
Proof.
  apply (@undo_pointer_stays_in_range string).
  repeat constructor; discriminate.
Defined.

Lemma undo_then_redo_witness :
  Undo.reducer
    (Some (fst (Undo.reducer (Some (Undo.mkUndoState ["a"; "b"] 1))
                             Undo.undo))) Undo.redo
  = (Undo.mkUndoState ["a"; "b"] 1, []).
Proof.
  apply (@undo_then_redo string (Undo.mkUndoState ["a"; "b"] 1)).
  - unfold Undo.pointerInRange. simpl. lia.
  - simpl. lia.
Defined.

Lemma redo_then_undo_witness :
  Undo.reducer
    (Some (fst (Undo.reducer (Some (Undo.mkUndoState ["a"; "b"] 0))
                             Undo.redo))) Undo.undo
  = (Undo.mkUndoState ["a"; "b"] 0, []).
Proof.
  apply (@redo_then_undo string (Undo.mkUndoState ["a"; "b"] 0)).
  simpl. lia.
Defined.

Lemma snapshot_drops_redo_witness :
  Undo.stack (fst (Undo.reducer (Some (Undo.mkUndoState ["a"; "b"; "c"] 0))
                                (Undo.undoSnapshot (Undo.Value "z"))))
  = ["a"; "z"].
Proof.
  apply (@snapshot_drops_redo string (Undo.mkUndoState ["a"; "b"; "c"] 0) "z").
  unfold Undo.pointerInRange. simpl. lia.
Defined.

Lemma undo_after_snapshot_witness :
  Undo.reducer
    (Some (fst (Undo.reducer (Some Undo.initialState)
                             (Undo.undoSnapshot (Undo.Value "a")))))
    Undo.undo
  = (Undo.mkUndoState ["a"] 0, ["Can't undo, undo stack is empty"]).
Proof.
  apply (@undo_after_snapshot string Undo.initialState "a").
  unfold Undo.pointerInRange. simpl. lia.
Defined.

Lemma undo_redo_keep_stack_witness :
  Undo.stack (Undo.dispatchAll (Undo.mkUndoState ["a"; "b"] 1)
                               [Undo.undo; Undo.undo; Undo.redo])
  = ["a"; "b"].
Proof.
  apply (@undo_redo_keep_stack string (Undo.mkUndoState ["a"; "b"] 1)).
  - repeat (apply Forall_cons; [(now left) || (now right)|]). constructor.
  - simpl. lia.
Defined.

(* ================================================================== *)
(** ** The names tried by findLegalName *)
(* ================================================================== *)

Lemma parse_digits_acc (u : Decimal.uint) :
  forall acc : positive,
    fold_left (fun a c => (10 * a + (code c - 48))%N)
              (list_ascii_of_string (NilEmpty.string_of_uint u)) (N.pos acc)
    = N.pos (Pos.of_uint_acc u acc).
Proof.
  induction u as [|u IH|u IH|u IH|u IH|u IH|u IH|u IH|u IH|u IH|u IH];
    intros acc; cbn [NilEmpty.string_of_uint list_ascii_of_string fold_left
                     Pos.of_uint_acc];
    [reflexivity|..];
    match goal with
    | |- fold_left _ _ ?x = N.pos (Pos.of_uint_acc _ ?y) =>
        replace x with (N.pos y) by (unfold code; simpl N_of_ascii; lia)
    end; apply IH.
Qed.

Lemma parse_digits (u : Decimal.uint) :
  fold_left (fun a c => (10 * a + (code c - 48))%N)
            (list_ascii_of_string (NilEmpty.string_of_uint u)) 0%N
  = N.of_uint u.
Proof.
  unfold N.of_uint.
  induction u as [|u IH|u IH|u IH|u IH|u IH|u IH|u IH|u IH|u IH|u IH];
    cbn [NilEmpty.string_of_uint list_ascii_of_string fold_left Pos.of_uint];
    [reflexivity|exact IH|..];
    match goal with
    | |- fold_left _ _ ?x = N.pos (Pos.of_uint_acc _ ?y) =>
        change x with (N.pos y)
    end; apply parse_digits_acc.
Qed.

Lemma digits_of_uint (u : Decimal.uint) :
  allDigits (NilEmpty.string_of_uint u) = true.
Proof.
  induction u; cbn [NilEmpty.string_of_uint allDigits]; try reflexivity;
    rewrite IHu; reflexivity.
Qed.

Lemma numberToString_digits n :
  allDigits (numberToString n) = true /\ numberToString n <> EmptyString.
Proof.
  unfold numberToString, NilZero.string_of_uint.
  destruct (N.to_uint n) eqn:Hu; try (split; [reflexivity|discriminate]);
    (split; [apply (digits_of_uint (_ u))|discriminate]).
Qed.

Lemma parseInt_numberToString n :
  parseInt (numberToString n) = n
  /\ allDigits (numberToString n) = true
  /\ numberToString n <> EmptyString.
Proof.
  split; [|apply numberToString_digits].
  unfold parseInt, numberToString, NilZero.string_of_uint.
  rewrite <- (DecimalN.Unsigned.of_to n) at 2.
  destruct (N.to_uint n); try apply parse_digits. reflexivity.
Qed.

(** X7: reading back what was written gives the number: for an integer
    that a double holds exactly, [parseInt] of its decimal string is the
    integer, and that string is a non-empty run of digits. *)
Theorem parseInt_reads_back n :
  (n <= maxExact)%N ->
  parseInt (numberToString n) = n
  /\ allDigits (numberToString n) = true
  /\ numberToString n <> EmptyString.
Proof. intros _. apply parseInt_numberToString. Qed.

Lemma parseInt_reads_back_witness : parseInt (numberToString 1234) = 1234%N.
Proof. apply (@parseInt_reads_back 1234). unfold maxExact. lia. Defined.

Lemma append_inj_l (p a b : string) :
  (p ++ a)%string = (p ++ b)%string -> a = b.
Proof. induction p as [|c p IH]; simpl; [easy|]. intros [= H]. now apply IH. Qed.

(** The prefix of a match is the shortest one: with any other run of
    digits after it, the match splits at the same place. *)
Lemma matchTrailingDigits_prefix s p d :
  matchTrailingDigits s = Some (p, d) ->
  forall d', allDigits d' = true -> d' <> EmptyString ->
             matchTrailingDigits (p ++ d') = Some (p, d').
Proof.
  revert p. induction s as [|c s IH]; intros p; [discriminate|].
  cbn [matchTrailingDigits].
  destruct (allDigits (String c s)) eqn:Hall.
  - intros [= <- <-] d' Hd' Hne. simpl.
    destruct d' as [|x d']; [congruence|].
    cbn [matchTrailingDigits]. now rewrite Hd'.
  - destruct (isLineTerminator c) eqn:Hlt; [discriminate|].
    destruct (matchTrailingDigits s) as [[p' d0]|] eqn:Hm; [|discriminate].
    intros [= <- <-] d' Hd' Hne.
    specialize (IH p' eq_refl d' Hd' Hne).
    change (String c p' ++ d')%string with (String c (p' ++ d')%string).
    cbn [matchTrailingDigits]. rewrite Hlt, IH.
    assert (Hnot : allDigits (String c (p' ++ d')) = false).
    { cbn [allDigits]. destruct (isDigit c) eqn:Hc; [|reflexivity]. simpl.
      destruct (allDigits (p' ++ d')) eqn:Hpd; [exfalso|reflexivity].
      assert (Hp : p' = EmptyString).
      { destruct (p' ++ d')%string as [|x r] eqn:E; [discriminate|].
        cbn [matchTrailingDigits] in IH. rewrite Hpd in IH.
        now injection IH as <- _. }
      subst p'. destruct (matchTrailingDigits_spec _ Hm) as [Hs [Hd0 _]].
      simpl in Hs. subst d0. cbn [allDigits] in Hall.
      rewrite Hc, Hd0 in Hall. discriminate. }
    now rewrite Hnot.
Qed.

(** X8: a turn of the loop changes the name, as long as the integer the
    name ends in, if any, is below [2^53]. *)
Theorem nextName_changes_name name :
  (forall p d, matchTrailingDigits name = Some (p, d) ->
               (parseInt d < maxExact)%N) ->
  nextName name <> name.
Proof.
  intros _. unfold nextName. destruct (matchTrailingDigits name) as [[p d]|] eqn:Hm.
  - destruct (matchTrailingDigits_spec _ Hm) as [Hs _]. intros Heq.
    rewrite Hs in Heq. apply append_inj_l in Heq.
    apply (f_equal parseInt) in Heq.
    rewrite (proj1 (parseInt_numberToString _)) in Heq. lia.
  - intros Heq. apply (f_equal String.length) in Heq.
    rewrite append_length in Heq. simpl in Heq. lia.
Qed.

Lemma nextName_of_match name p d :
  matchTrailingDigits name = Some (p, d) ->
  nextName name = (p ++ numberToString (parseInt d + 1))%string
  /\ matchTrailingDigits (nextName name)
     = Some (p, numberToString (parseInt d + 1)).
Proof.
  intros Hm. unfold nextName. rewrite Hm. split; [reflexivity|].
  destruct (numberToString_digits (parseInt d + 1)) as [H1 H2].
  now apply (matchTrailingDigits_prefix _ Hm).
Qed.

Lemma nextName_changes_name_witness : nextName "foo9" <> "foo9".
Proof.
  apply (@nextName_changes_name "foo9").
  intros p d [= <- <-]. unfold maxExact. vm_compute. reflexivity.
Defined.

(** X9: on a name that ends in an integer the loop counts: after [k]
    turns, one or more, the name is the same prefix followed by the
    integer plus [k], written without leading zeros, as long as that sum
    stays within [2^53]. *)
Theorem iterNextName_counts name p d k :
  matchTrailingDigits name = Some (p, d) ->
  (parseInt d + N.of_nat (S k) <= maxExact)%N ->
  iterNextName (S k) name
  = (p ++ numberToString (parseInt d + N.of_nat (S k)))%string.
Proof.
  intros Hm _. revert name d Hm.
  induction k as [|k IH]; intros name d Hm.
  - simpl. now destruct (nextName_of_match _ Hm) as [-> _].
  - destruct (nextName_of_match _ Hm) as [_ Hm'].
    change (iterNextName (S (S k)) name)
      with (iterNextName (S k) (nextName name)).
    rewrite (IH _ _ Hm'), (proj1 (parseInt_numberToString _)).
    do 2 f_equal. lia.
Qed.

Lemma iterNextName_counts_witness :
  iterNextName 3 "foo 098" = "foo 101".
Proof.
  apply (@iterNextName_counts "foo 098" "foo " "098" 2 eq_refl).
  unfold maxExact. vm_compute. discriminate.
Defined.

(* ================================================================== *)
(** ** What trim leaves alone *)
(* ================================================================== *)

Lemma trimStart_fixed t :
  (forall c, firstChar t = Some c -> isSpace c = false) -> trimStart t = t.
Proof.
  destruct t as [|c t]; [reflexivity|]. simpl. intros H.
  now rewrite (H c eq_refl).
Qed.

Lemma trimEnd_fixed t :
  (forall c, lastChar t = Some c -> isSpace c = false) -> trimEnd t = t.
Proof.
  induction t as [|c t IH]; [reflexivity|]. intros H.
  cbn [trimEnd]. destruct t as [|b t].
  - simpl. now rewrite (H c eq_refl).
  - assert (Ht : trimEnd (String b t) = String b t) by (apply IH; exact H).
    destruct (allSpace (String c (String b t))) eqn:Hall.
    + cbn [allSpace] in Hall. apply andb_true_iff in Hall.
      destruct Hall as [_ Hall]. cbn [trimEnd] in Ht.
      change (isSpace b && allSpace t) with (allSpace (String b t)) in Hall.
      rewrite Hall in Ht. discriminate.
    + now rewrite Ht.
Qed.

(** X10: [trim] leaves a name without white space at its ends as it is;
    trimming twice is trimming once. *)
Theorem trim_idempotent :
  (forall t, trimmed t -> trim t = t) /\ (forall s, trim (trim s) = trim s).
Proof.
  assert (H : forall t, trimmed t -> trim t = t).
  { intros t [Hf Hl]. unfold trim.
    rewrite (trimStart_fixed _ Hf). now apply trimEnd_fixed. }
  split; [exact H|]. intros s. apply H. apply trim_spec.
Qed.

Lemma trim_idempotent_witness : trim "a  b" = "a  b".
Proof.
  apply (proj1 trim_idempotent). split; intros c [= <-]; reflexivity.
Defined.

(* ================================================================== *)
(** ** Where findLegalName leaves its loop *)
(* ================================================================== *)

Lemma findLegalName_loop_exit workspace block :
  forall fuel name n,
    findLegalName_loop fuel name workspace block = Some (Ok n) ->
    exists k,
      k < fuel
      /\ n = iterNextName k name
      /\ isNameUsed n workspace (Some block) = Ok false
      /\ forall j, j < k ->
                   isNameUsed (iterNextName j name) workspace (Some block)
                   = Ok true.
Proof.
  induction fuel as [|fuel IH]; intros name n; [discriminate|].
  cbn [findLegalName_loop]. unfold isLegalName_.
  destruct (isNameUsed name workspace (Some block)) as [[|]|] eqn:Hu; simpl.
  - intros Hrec. destruct (IH _ _ Hrec) as [k [Hk [Hn [Hfree Hbefore]]]].
    exists (S k). repeat split; [lia|exact Hn|exact Hfree|].
    intros [|j] Hj; [exact Hu|]. apply Hbefore. lia.
  - intros [= <-]. exists 0. repeat split; [lia|exact Hu|]. intros j Hj. lia.
  - discriminate.
Qed.

(** X11: out of the flyout, a name that [findLegalName] returns is the
    first of the names tried, the proposed one and those that follow by
    the collision step, for which [isNameUsed] answers [false]; where no
    tuple is [null] this is a name that another block defines. *)
Theorem findLegalName_returns_first_exit fuel name block workspace n :
  isInFlyout block = false ->
  findLegalName fuel name block workspace = Some (Ok n) ->
  (exists k,
      k < fuel
      /\ n = iterNextName k name
      /\ isNameUsed n workspace (Some block) = Ok false
      /\ forall j, j < k ->
                   isNameUsed (iterNextName j name) workspace (Some block)
                   = Ok true)
  /\ (noNullTuple (getAllBlocks workspace) ->
      nameIsDefined n workspace (Some block) = true).
Proof.
  unfold findLegalName. intros -> Hret.
  destruct (findLegalName_loop_exit _ _ _ _ Hret) as [k [Hk [Hn [Hfree Hb]]]].
  split; [now exists k|].
  intros Hnn. rewrite (isNameUsed_negates _ _ _ Hnn) in Hfree.
  injection Hfree as Hfree. now apply negb_false_iff in Hfree.
Qed.

Lemma findLegalName_returns_first_exit_witness :
  nameIsDefined "foo2" ex_wsFooFoo2 (Some ex_defFoo) = true.
Proof.
  apply (@findLegalName_returns_first_exit 2 "foo" ex_defFoo ex_wsFooFoo2
                                           "foo2" eq_refl eq_refl).
  intros b Hb. simpl in Hb.
  destruct Hb as [<-|[<-|[<-|[<-|[]]]]]; discriminate.
Defined.

(* ================================================================== *)
(** ** getDefinition *)
(* ================================================================== *)

Lemma definesName_unguarded name b :
  definesName name None b
  = match getProcedureDef b with
    | Some (Some t) => Names_equals (tuple_name t) name
    | _ => false
    end.
Proof. reflexivity. Qed.

(** X12: [getDefinition] never raises; it returns the first top block that
    defines the name, case apart, and [null] when no top block does.  A
    definition below another block is not looked at. *)
Theorem getDefinition_first_top_block name workspace :
  exists r,
    getDefinition name workspace = Ok r
    /\ match r with
       | Some b =>
           exists before after,
           getTopBlocks workspace = before ++ b :: after
           /\ definesName name None b = true
           /\ Forall (fun x => definesName name None x = false) before
       | None =>
           Forall (fun x => definesName name None x = false)
                  (getTopBlocks workspace)
       end.
Proof.
  unfold getDefinition.
  induction (getTopBlocks workspace) as [|b rest [r [Hr Hspec]]]; simpl.
  - exists None. split; [reflexivity|constructor].
  - assert (Hskip : definesName name None b = false ->
              exists r0,
                getDefinition_loop name rest = Ok r0
                /\ match r0 with
                   | Some b0 =>
                       exists before after,
                       b :: rest = before ++ b0 :: after
                       /\ definesName name None b0 = true
                       /\ Forall (fun x => definesName name None x = false)
                                 before
                   | None =>
                       Forall (fun x => definesName name None x = false)
                              (b :: rest)
                   end).
    { intros Hb. exists r. split; [exact Hr|].
      destruct r as [b0|].
      - destruct Hspec as [before [after [H1 [H2 H3]]]].
        exists (b :: before), after. rewrite H1.
        repeat split; [exact H2|now constructor].
      - now constructor. }
    pose proof (definesName_unguarded name b) as Hd.
    destruct (getProcedureDef b) as [[t|]|]; simpl; try (now apply Hskip).
    destruct (Names_equals (tuple_name t) name) eqn:Hn; [|now apply Hskip].
    exists (Some b). split; [reflexivity|].
    exists [], rest. repeat split; [exact Hd|constructor].
Qed.

(* ================================================================== *)
(** ** Recursive calls and the deletion guard *)
(* ================================================================== *)

(** X13: the callers found without recursive calls are among those found
    with them; what the flag adds lies in a stack whose root has the id of
    the definition root; when no top block has that id the flag changes
    nothing. *)
Theorem getCallers_recursive_adds_own_stack name ws definitionRoot :
  exists outside all,
    getCallers name ws (Some definitionRoot) false = Ok outside
    /\ getCallers name ws (Some definitionRoot) true = Ok all
    /\ incl outside all
    /\ (forall b, In b all ->
                  In b outside
                  \/ exists top, In top (getTopBlocks ws)
                                 /\ id top = id definitionRoot
                                 /\ In b (getDescendants top))
    /\ (Forall (fun top => id top <> id definitionRoot) (getTopBlocks ws) ->
        outside = all).
Proof.
  rewrite !getCallers_filter. eexists. eexists.
  split; [reflexivity|]. split; [reflexivity|].
  unfold stacksSearched. split; [|split].
  - intros b Hb. apply filter_In in Hb. destruct Hb as [Hb Hc].
    apply filter_In. split; [|exact Hc].
    apply in_flat_map in Hb. destruct Hb as [top [Htop Hb]].
    apply filter_In in Htop. destruct Htop as [Htop _].
    apply in_flat_map. exists top. split; [|exact Hb].
    apply filter_In. split; [exact Htop|]. simpl. now rewrite andb_false_r.
  - intros b Hb. apply filter_In in Hb. destruct Hb as [Hb Hc].
    apply in_flat_map in Hb. destruct Hb as [top [Htop Hb]].
    apply filter_In in Htop. destruct Htop as [Htop _].
    destruct (String.eqb_spec (id top) (id definitionRoot)) as [He|Hne].
    + right. now exists top.
    + left. apply filter_In. split; [|exact Hc].
      apply in_flat_map. exists top. split; [|exact Hb].
      apply filter_In. split; [exact Htop|].
      apply String.eqb_neq in Hne. now rewrite Hne.
  - intros Hall. f_equal. f_equal. apply filter_ext_in. intros top Htop.
    rewrite Forall_forall in Hall. specialize (Hall top Htop).
    apply String.eqb_neq in Hall. rewrite Hall. reflexivity.
Qed.

Lemma getCallers_recursive_adds_own_stack_witness :
  exists outside all,
    getCallers "foo" ex_wsFooCalled (Some ex_defNull) false = Ok outside
    /\ getCallers "foo" ex_wsFooCalled (Some ex_defNull) true = Ok all
    /\ incl outside all
    /\ outside = all.
Proof.
  destruct (getCallers_recursive_adds_own_stack "foo" ex_wsFooCalled ex_defNull)
    as [outside [all [H1 [H2 [H3 [_ H5]]]]]].
  exists outside, all. repeat split; try assumption.
  apply H5. repeat constructor; discriminate.
Defined.

(** X14: calls inside the stack of the definition do not stand in the way
    of its deletion: when no other stack holds a call of the procedure,
    [deleteProcedureDefCallback] returns [true]. *)
Theorem deleteProcedureDefCallback_ignores_own_calls procCode definitionRoot st :
  (forall top b,
      In top (getTopBlocks (workspace st)) ->
      id top <> id definitionRoot ->
      In b (getDescendants top) -> isCallerOf procCode b = false) ->
  snd (deleteProcedureDefCallback procCode definitionRoot st) = Ok true.
Proof.
  intros Hnone. rewrite deleteProcedureDefCallback_unfold, getCallers_filter.
  destruct (filter _ _) as [|c callers] eqn:Hc; [reflexivity|].
  exfalso.
  assert (Hin : In c (c :: callers)) by now left.
  rewrite <- Hc in Hin. apply filter_In in Hin. destruct Hin as [Hin Hcall].
  rewrite <- isCallerOf_spec in Hcall.
  apply in_flat_map in Hin. destruct Hin as [top [Htop Hb]].
  apply filter_In in Htop. destruct Htop as [Htop Hne].
  rewrite andb_true_r in Hne. apply negb_true_iff in Hne.
  apply String.eqb_neq in Hne.
  rewrite (Hnone top c Htop Hne Hb) in Hcall. discriminate.
Qed.

Lemma deleteProcedureDefCallback_ignores_own_calls_witness :
  snd (deleteProcedureDefCallback "rec" ex_defRec (ex_state ex_wsRec))
  = Ok true
  /\ getCallers "rec" ex_wsRec (Some ex_defRec) true
     = Ok [mkBlock "call-rec" "procedures_callnoreturn" false None
                   (Some "rec") true []].
Proof.
  split; [|reflexivity].
  apply (@deleteProcedureDefCallback_ignores_own_calls
           "rec" ex_defRec (ex_state ex_wsRec)).
  intros top b [<-|[<-|[]]] Hne Hb.
  - exfalso. now apply Hne.
  - simpl in Hb. destruct Hb as [<-|[<-|[]]]; reflexivity.
Defined.

(* ================================================================== *)
(** ** The loop of mutateCallers *)
(* ================================================================== *)

Lemma mutation_neq_refl a : mutation_neq a a = false.
Proof. destruct a as [x|]; simpl; [now rewrite String.eqb_refl|reflexivity]. Qed.

(** The snapshots after one turn of the loop, whichever way the test
    goes. *)
Lemma mutateCallers_loop_step caller rest xmlElement oldRecordUndo st :
  exists st1,
    mutateCallers_loop (caller :: rest) xmlElement oldRecordUndo st
    = mutateCallers_loop rest xmlElement oldRecordUndo st1
    /\ mutation_ st1
       = (fun i => if String.eqb i (id caller) then xmlElement
                   else mutation_ st i)
    /\ workspace st1 = workspace st
    /\ group_ st1 = group_ st
    /\ (mutation_neq (mutation_ st (id caller)) xmlElement = false ->
        FIRE_QUEUE_ st1 = FIRE_QUEUE_ st /\ recordUndo st1 = recordUndo st)
    /\ (mutation_neq (mutation_ st (id caller)) xmlElement = true ->
        FIRE_QUEUE_ st1
        = FIRE_QUEUE_ st
          ++ [mkEvent "change" (id caller) (Some "mutation") None
                      (mutation_ st (id caller)) xmlElement (group_ st) false]).
Proof.
  rewrite mutateCallers_loop_cons. cbv zeta.
  cbn [set_mutation mutation_]. rewrite String.eqb_refl.
  destruct (mutation_neq (mutation_ st (id caller)) xmlElement);
    eexists; (split; [reflexivity|]); cbn; repeat split;
      try reflexivity; try discriminate.
Qed.

Lemma mutateCallers_loop_snapshots callers xmlElement oldRecordUndo :
  forall st,
    let run := mutateCallers_loop callers xmlElement oldRecordUndo st in
    snd run = Ok tt
    /\ (forall c, In c callers -> mutation_ (fst run) (id c) = xmlElement)
    /\ (forall i, ~ In i (map id callers) ->
                  mutation_ (fst run) i = mutation_ st i)
    /\ workspace (fst run) = workspace st.
Proof.
  induction callers as [|caller rest IH]; intros st; cbv zeta.
  - simpl. repeat split; try reflexivity. intros c [].
  - destruct (mutateCallers_loop_step caller rest xmlElement oldRecordUndo st)
      as [st1 [-> [Hm [Hw _]]]].
    destruct (IH st1) as [Hok [Hin [Hout Hws]]].
    split; [exact Hok|]. split; [|split].
    + intros c [<-|Hc]; [|now apply Hin].
      destruct (in_dec string_dec (id caller) (map id rest)) as [Hi|Hi].
      * apply in_map_iff in Hi. destruct Hi as [c' [<- Hc']]. now apply Hin.
      * rewrite (Hout _ Hi), Hm. now rewrite String.eqb_refl.
    + intros i Hi. simpl in Hi.
      rewrite Hout by tauto. rewrite Hm.
      destruct (String.eqb_spec i (id caller)) as [->|Hne]; [tauto|reflexivity].
    + now rewrite Hws.
Qed.

(** X15: after the loop every caller holds the snapshot of the definition,
    the blocks that are no callers hold what they held, and the loop does
    not raise. *)
Theorem mutateCallers_loop_updates_callers callers xmlElement oldRecordUndo :
  forall st,
    let run := mutateCallers_loop callers xmlElement oldRecordUndo st in
    snd run = Ok tt
    /\ (forall c, In c callers -> mutation_ (fst run) (id c) = xmlElement)
    /\ (forall i, ~ In i (map id callers) ->
                  mutation_ (fst run) i = mutation_ st i)
    /\ workspace (fst run) = workspace st.
Proof. apply mutateCallers_loop_snapshots. Qed.

(** X16: when the callers are distinct blocks, the loop fires one change
    event for each caller whose snapshot differs from the definition's, in
    the order of the callers, with the old and the new snapshot, made with
    the record-undo flag off, and no other event. *)
Theorem mutateCallers_loop_fires_once_per_stale_caller
        callers xmlElement oldRecordUndo :
  forall st,
    NoDup (map id callers) ->
    firedDuring st
      (fst (mutateCallers_loop callers xmlElement oldRecordUndo st))
      (map (fun c => mkEvent "change" (id c) (Some "mutation") None
                             (mutation_ st (id c)) xmlElement
                             (group_ st) false)
           (staleCallers callers xmlElement st)).
Proof.
  unfold firedDuring, staleCallers.
  induction callers as [|caller rest IH]; intros st Hnd.
  - simpl. now rewrite app_nil_r.
  - inversion Hnd as [|? ? Hnotin Hnd']; subst.
    destruct (mutateCallers_loop_step caller rest xmlElement oldRecordUndo st)
      as [st1 [-> [Hm [_ [Hg [Hsame Hfired]]]]]].
    rewrite (IH st1 Hnd').
    assert (Hrest : forall c, In c rest ->
                              mutation_ st1 (id c) = mutation_ st (id c)).
    { intros c Hc. rewrite Hm.
      destruct (String.eqb_spec (id c) (id caller)) as [He|Hne];
        [|reflexivity].
      exfalso. apply Hnotin. rewrite <- He. now apply in_map. }
    assert (Hfilter :
              filter (fun c => mutation_neq (mutation_ st1 (id c)) xmlElement)
                     rest
              = filter (fun c => mutation_neq (mutation_ st (id c)) xmlElement)
                       rest).
    { apply filter_ext_in. intros c Hc. now rewrite Hrest. }
    rewrite Hfilter, Hg.
    assert (Hmap :
              map (fun c => mkEvent "change" (id c) (Some "mutation") None
                                    (mutation_ st1 (id c)) xmlElement
                                    (group_ st) false)
                  (filter (fun c => mutation_neq (mutation_ st (id c))
                                                 xmlElement) rest)
              = map (fun c => mkEvent "change" (id c) (Some "mutation") None
                                      (mutation_ st (id c)) xmlElement
                                      (group_ st) false)
                    (filter (fun c => mutation_neq (mutation_ st (id c))
                                                   xmlElement) rest)).
    { apply map_ext_in. intros c Hc. apply filter_In in Hc.
      now rewrite Hrest. }
    rewrite Hmap. cbn [filter].
    destruct (mutation_neq (mutation_ st (id caller)) xmlElement).
    + rewrite (Hfired eq_refl). cbn [map]. now rewrite <- app_assoc.
    + now rewrite (proj1 (Hsame eq_refl)).
Qed.

Lemma mutateCallers_loop_fires_once_per_stale_caller_witness :
  map ev_blockId
      (FIRE_QUEUE_
         (fst (mutateCallers_loop [ex_callFoo; ex_callBlank] (Some "foo(a,b)")
                                  true (ex_state ex_wsFooCalled))))
  = ["call-foo"; "call-blank"].
Proof.
  rewrite (@mutateCallers_loop_fires_once_per_stale_caller
             [ex_callFoo; ex_callBlank] (Some "foo(a,b)") true
             (ex_state ex_wsFooCalled)).
  - reflexivity.
  - repeat constructor; simpl; intuition discriminate.
Defined.

Lemma mutateCallers_loop_quiet callers xmlElement oldRecordUndo :
  forall st,
    (forall c, In c callers -> mutation_ st (id c) = xmlElement) ->
    let st' := fst (mutateCallers_loop callers xmlElement oldRecordUndo st) in
    FIRE_QUEUE_ st' = FIRE_QUEUE_ st
    /\ recordUndo st' = recordUndo st
    /\ forall i, mutation_ st' i = mutation_ st i.
Proof.
  induction callers as [|caller rest IH]; intros st Hall; cbv zeta.
  - simpl. repeat split.
  - destruct (mutateCallers_loop_step caller rest xmlElement oldRecordUndo st)
      as [st1 [-> [Hm [_ [_ [Hsame _]]]]]].
    assert (Hc : mutation_ st (id caller) = xmlElement)
      by (apply Hall; now left).
    assert (Hq : mutation_neq (mutation_ st (id caller)) xmlElement = false)
      by (rewrite Hc; apply mutation_neq_refl).
    destruct (Hsame Hq) as [Hf Hr].
    assert (Hpt : forall i, mutation_ st1 i = mutation_ st i).
    { intros i. rewrite Hm.
      destruct (String.eqb_spec i (id caller)) as [->|]; congruence. }
    destruct (IH st1) as [H1 [H2 H3]].
    { intros c Hin. rewrite Hpt. apply Hall. now right. }
    repeat split; [congruence|congruence|].
    intros i. now rewrite H3.
Qed.

(** X17: a second pass of the loop over the same callers with the same
    snapshot fires nothing and changes neither the record-undo flag nor
    any snapshot. *)
Theorem mutateCallers_loop_second_pass_is_quiet
        callers xmlElement oldRecordUndo oldRecordUndo' st :
  let st1 := fst (mutateCallers_loop callers xmlElement oldRecordUndo st) in
  let st2 := fst (mutateCallers_loop callers xmlElement oldRecordUndo' st1) in
  FIRE_QUEUE_ st2 = FIRE_QUEUE_ st1
  /\ recordUndo st2 = recordUndo st1
  /\ forall i, mutation_ st2 i = mutation_ st1 i.
Proof.
  cbv zeta. apply mutateCallers_loop_quiet.
  intros c Hc.
  now apply (mutateCallers_loop_snapshots callers xmlElement
                                          oldRecordUndo st).
Qed.

(* ================================================================== *)
(** ** flyoutCategory *)
(* ================================================================== *)

Lemma populateProcedures_spec procedureList templateName xmlList :
  populateProcedures procedureList templateName xmlList
  = xmlList ++ map (procedureElement templateName) procedureList.
Proof.
  unfold populateProcedures. revert xmlList.
  induction procedureList as [|t l IH]; intros xmlList; simpl.
  - now rewrite app_nil_r.
  - rewrite IH, <- app_assoc. reflexivity.
Qed.

Lemma systemElements_length Blocks Msg :
  length (systemElements Blocks Msg) = systemCount Blocks.
Proof. destruct Blocks as [[|] [|] [|]]; reflexivity. Qed.

Lemma systemElements_gaps Blocks Msg :
  map (getAttribute "gap")
      (if negb (length (systemElements Blocks Msg) =? 0)%nat
       then updateLast (setAttribute "gap" "24") (systemElements Blocks Msg)
       else systemElements Blocks Msg)
  = match systemCount Blocks with
    | O => []
    | S n => repeat (Some "16") n ++ [Some "24"]
    end.
Proof. destruct Blocks as [[|] [|] [|]]; reflexivity. Qed.

Lemma updateLast_length f l : length (updateLast f l) = length l.
Proof.
  induction l as [|x [|y l] IH]; try reflexivity.
  change (updateLast f (x :: y :: l)) with (x :: updateLast f (y :: l)).
  change (length (x :: updateLast f (y :: l)))
    with (S (length (updateLast f (y :: l)))).
  now rewrite IH.
Qed.

Lemma procedureElement_gap templateName t :
  getAttribute "gap" (procedureElement templateName t) = Some "16".
Proof. reflexivity. Qed.

Lemma fill_mutation args :
  forall m,
    let filled :=
      fold_left (fun m a =>
                   appendChild (setAttribute "name" a (createDom "arg" None)) m)
                args m in
    attributes filled = attributes m
    /\ childNodes filled
       = childNodes m
         ++ map (fun a => setAttribute "name" a (createDom "arg" None)) args.
Proof.
  induction args as [|a args IH]; intros m; cbv zeta; simpl.
  - now rewrite app_nil_r.
  - destruct (IH (appendChild (setAttribute "name" a (createDom "arg" None)) m))
      as [H1 H2].
    rewrite H1, H2. simpl. now rewrite <- app_assoc.
Qed.

Lemma read_args args :
  flat_map (fun a => match getAttribute "name" a with
                     | Some p => [p]
                     | None => []
                     end)
           (map (fun a => setAttribute "name" a (createDom "arg" None)) args)
  = args.
Proof.
  induction args as [|a args IH]; [reflexivity|].
  cbn [map flat_map]. rewrite IH. reflexivity.
Qed.

Lemma readProcedure_procedureElement t :
  readProcedure
    (procedureElement (if tuple_hasReturn t then "procedures_callreturn"
                       else "procedures_callnoreturn") t)
  = Some t.
Proof.
  unfold readProcedure, procedureElement.
  set (m0 := setAttribute "name" (tuple_name t) (createDom "mutation" None)).
  destruct (fill_mutation (tuple_params t) m0) as [Hattr Hkids].
  cbv zeta in Hattr, Hkids.
  set (m := fold_left _ (tuple_params t) m0) in *.
  assert (Hname : getAttribute "name" m = Some (tuple_name t)).
  { unfold getAttribute. rewrite Hattr. reflexivity. }
  destruct t as [name params [|]]; cbn -[m read_args] in *;
    rewrite Hname, Hkids; cbn; now rewrite read_args.
Qed.

(** The two arrays of [allProcedures] hold tuples of their own kind. *)
Lemma allProcedures_partitions localeCompare workspace :
  exists proceduresNoReturn proceduresReturn,
    allProcedures localeCompare workspace
    = Ok (proceduresNoReturn, proceduresReturn)
    /\ Forall (fun t => tuple_hasReturn t = false) proceduresNoReturn
    /\ Forall (fun t => tuple_hasReturn t = true) proceduresReturn.
Proof.
  unfold allProcedures. rewrite allProcedures_loop_spec. cbn [bind app].
  eexists. eexists. split; [reflexivity|]. split.
  - apply Forall_forall. intros t Ht.
    apply (Permutation_in _ (sort_perm _ _)) in Ht.
    apply filter_In in Ht. destruct Ht as [_ Ht].
    unfold noReturn in Ht. now apply negb_true_iff in Ht.
  - apply Forall_forall. intros t Ht.
    apply (Permutation_in _ (sort_perm _ _)) in Ht.
    apply filter_In in Ht. tauto.
Qed.

(** X18: the flyout holds one element for each of the three block types
    that are registered and one for each procedure; every element has the
    gap 16 but the last of the registered ones, which has 24; with none
    registered no element has 24. *)
Theorem flyoutCategory_gaps localeCompare Blocks Msg workspace :
  exists proceduresNoReturn proceduresReturn xmlList,
    allProcedures localeCompare workspace
    = Ok (proceduresNoReturn, proceduresReturn)
    /\ flyoutCategory localeCompare Blocks Msg workspace = Ok xmlList
    /\ length xmlList
       = systemCount Blocks + length proceduresNoReturn
         + length proceduresReturn
    /\ map (getAttribute "gap") xmlList
       = match systemCount Blocks with
         | O => []
         | S n => repeat (Some "16") n ++ [Some "24"]
         end
         ++ repeat (Some "16")
                   (length proceduresNoReturn + length proceduresReturn).
Proof.
  destruct (allProcedures_partitions localeCompare workspace)
    as [nr [r [Hall _]]].
  exists nr, r. eexists. split; [exact Hall|].
  unfold flyoutCategory. rewrite Hall. cbn [bind fst snd].
  rewrite !populateProcedures_spec. split; [reflexivity|]. split.
  - rewrite !length_app, !length_map.
    destruct (negb _); [rewrite updateLast_length|];
      rewrite systemElements_length; lia.
  - rewrite !map_app, systemElements_gaps, <- app_assoc. f_equal.
    rewrite repeat_app. f_equal.
    + rewrite map_map. clear.
      induction nr as [|t nr IH]; [reflexivity|].
      cbn [map length repeat]. now rewrite procedureElement_gap, IH.
    + rewrite map_map. clear.
      induction r as [|t r IH]; [reflexivity|].
      cbn [map length repeat]. now rewrite procedureElement_gap, IH.
Qed.

(** X19: the signatures can be read back from the flyout: after the
    elements of the registered block types come the call elements, and
    reading them gives the tuples of [allProcedures], those without a
    return value first, with their names, their parameters in order and
    their return flags. *)
Theorem flyoutCategory_reads_back localeCompare Blocks Msg workspace :
  exists proceduresNoReturn proceduresReturn xmlList,
    allProcedures localeCompare workspace
    = Ok (proceduresNoReturn, proceduresReturn)
    /\ flyoutCategory localeCompare Blocks Msg workspace = Ok xmlList
    /\ map readProcedure (skipn (systemCount Blocks) xmlList)
       = map Some (proceduresNoReturn ++ proceduresReturn).
Proof.
  destruct (allProcedures_partitions localeCompare workspace)
    as [nr [r [Hall [Hnr Hr]]]].
  exists nr, r. eexists. split; [exact Hall|].
  unfold flyoutCategory. rewrite Hall. cbn [bind fst snd].
  rewrite !populateProcedures_spec. split; [reflexivity|].
  rewrite <- app_assoc.
  rewrite skipn_app.
  assert (Hlen : length (if negb (length (systemElements Blocks Msg) =? 0)%nat
                         then updateLast (setAttribute "gap" "24")
                                         (systemElements Blocks Msg)
                         else systemElements Blocks Msg)
                 = systemCount Blocks).
  { destruct (negb _); [rewrite updateLast_length|];
      apply systemElements_length. }
  rewrite Hlen, Nat.sub_diag, <- Hlen, skipn_all. cbn [skipn app].
  rewrite !map_app, !map_map. f_equal.
  - apply map_ext_in. intros t Ht.
    rewrite Forall_forall in Hnr. specialize (Hnr t Ht).
    pose proof (readProcedure_procedureElement t) as H.
    now rewrite Hnr in H.
  - apply map_ext_in. intros t Ht.
    rewrite Forall_forall in Hr. specialize (Hr t Ht).
    pose proof (readProcedure_procedureElement t) as H.
    now rewrite Hr in H.
Qed.

(* ================================================================== *)
(** ** The handle tool *)
(* ================================================================== *)

Section HandleToolFacts.

Variable Point : Type.
Variable equals : HandleTool.Segment Point -> Point -> bool.

Lemma releaseSegments_spec segs :
  forall moved,
    HandleTool.releaseSegments equals segs moved
    = (map (fun seg => HandleTool.mkSegment (HandleTool.point seg) None) segs,
       moved || existsb (HandleTool.segMoved equals) segs).
Proof.
  induction segs as [|seg rest IH]; intros moved; simpl.
  - now rewrite orb_false_r.
  - rewrite IH. f_equal. unfold HandleTool.segMoved.
    destruct (HandleTool.origPoint seg) as [p|]; [|reflexivity].
    destruct (equals seg p); simpl; [reflexivity|].
    now rewrite orb_true_r.
Qed.

Lemma releaseItems_all items :
  Forall (fun item => HandleTool.segments item <> None) items ->
  forall moved,
    HandleTool.releaseItems equals items moved
    = (map (@HandleTool.released Point) items,
       Some (moved || existsb (HandleTool.itemMoved equals) items)).
Proof.
  induction 1 as [|item rest Hi _ IH]; intros moved; simpl.
  - now rewrite orb_false_r.
  - unfold HandleTool.itemMoved, HandleTool.released.
    destruct (HandleTool.segments item) as [segs|]; [|congruence].
    rewrite releaseSegments_spec, IH. simpl. now rewrite orb_assoc.
Qed.

Lemma releaseItems_early before item after :
  Forall (fun i => HandleTool.segments i <> None) before ->
  HandleTool.segments item = None ->
  forall moved,
    HandleTool.releaseItems equals (before ++ item :: after) moved
    = (map (@HandleTool.released Point) before ++ item :: after, None).
Proof.
  intros Hb Hitem. induction Hb as [|b rest Hs _ IH]; intros moved; simpl.
  - now rewrite Hitem.
  - unfold HandleTool.released.
    destruct (HandleTool.segments b) as [segs|]; [|congruence].
    rewrite releaseSegments_spec, IH. reflexivity.
Qed.

(** X20: when every selected item has segments, [onMouseUp] forgets the
    point of origin of every segment, empties the selection, and calls
    [onUpdateSvg] once if some segment had a point of origin it no longer
    equals, and not at all otherwise. *)
Theorem onMouseUp_releases (tool : HandleTool.Tool Point) :
  Forall (fun item => HandleTool.segments item <> None)
         (HandleTool.selectedItems tool) ->
  HandleTool.onMouseUp equals tool
  = (HandleTool.mkTool []
       (if existsb (HandleTool.itemMoved equals)
                   (HandleTool.selectedItems tool)
        then S (HandleTool.updateSvgCalls tool)
        else HandleTool.updateSvgCalls tool),
     map (@HandleTool.released Point) (HandleTool.selectedItems tool)).
Proof.
  intros Hall. unfold HandleTool.onMouseUp.
  now rewrite (releaseItems_all Hall).
Qed.

(** X21: when a selected item has no segments, [onMouseUp] stops at it:
    the items before it are released, that item and those after it are
    left as they are, the selection is not emptied and [onUpdateSvg] is
    not called, whatever moved. *)
Theorem onMouseUp_stops_at_item_without_segments
        (tool : HandleTool.Tool Point) before item after :
  HandleTool.selectedItems tool = before ++ item :: after ->
  Forall (fun i => HandleTool.segments i <> None) before ->
  HandleTool.segments item = None ->
  HandleTool.onMouseUp equals tool
  = (HandleTool.mkTool
       (map (@HandleTool.released Point) before ++ item :: after)
       (HandleTool.updateSvgCalls tool),
     map (@HandleTool.released Point) before ++ item :: after).
Proof.
  intros Hsel Hb Hitem. unfold HandleTool.onMouseUp.
  now rewrite Hsel, (@releaseItems_early _ _ after Hb Hitem).
Qed.

End HandleToolFacts.

Lemma onMouseUp_releases_witness :
  HandleTool.onMouseUp (fun _ _ => false)
    (HandleTool.mkTool
       [HandleTool.mkItem (Some [HandleTool.mkSegment 1 (Some 1)])] 0)
  = (HandleTool.mkTool [] 1,
     [HandleTool.mkItem (Some [HandleTool.mkSegment 1 None])]).
Proof.
  apply (@onMouseUp_releases nat (fun _ _ => false)).
  repeat constructor. discriminate.
Defined.

Lemma onMouseUp_stops_at_item_without_segments_witness :
  HandleTool.onMouseUp (fun _ _ => false)
    (HandleTool.mkTool
       [HandleTool.mkItem (Some [HandleTool.mkSegment 1 (Some 1)]);
        HandleTool.mkItem None] 0)
  = (HandleTool.mkTool
       [HandleTool.mkItem (Some [HandleTool.mkSegment 1 None]);
        HandleTool.mkItem None] 0,
     [HandleTool.mkItem (Some [HandleTool.mkSegment 1 None]);
      HandleTool.mkItem None]).
Proof.
  refine (@onMouseUp_stops_at_item_without_segments nat (fun _ _ => false)
            (HandleTool.mkTool
               [HandleTool.mkItem (Some [HandleTool.mkSegment 1 (Some 1)]);
                HandleTool.mkItem None] 0)
            [HandleTool.mkItem (Some [HandleTool.mkSegment 1 (Some 1)])]
            (HandleTool.mkItem None) [] eq_refl _ eq_refl).
  repeat constructor. discriminate.
Defined.

(* ================================================================== *)
(** ** The guides *)
(* ================================================================== *)

Lemma flat_map_if (A B : Type) (c : A -> bool) (f : A -> B) l :
  flat_map (fun x => if c x then [f x] else []) l = map f (filter c l).
Proof.
  induction l as [|x l IH]; [reflexivity|]. cbn [flat_map filter].
  rewrite IH. destruct (c x); reflexivity.
Qed.

(** X22: [removeHitPoint] calls [remove] once on each item whose data
    marks it as hit point and [removeAllGuides] once on each item that is
    a guide, in the order of the items, and on no other; an item without
    data is never removed by its data.  [removeBoundsPath] calls [remove]
    on an item as many times as the item has of the three tags it looks
    for. *)
Theorem guides_remove_tagged_items allItems :
  Guides.removeHitPoint allItems
  = map Guides.itemId
        (filter (fun item => Guides.dataTag item "isHitPoint") allItems)
  /\ Guides.removeAllGuides allItems
     = map Guides.itemId
           (filter (fun item => Guides.own item "guide") allItems)
  /\ Guides.removeBoundsPath allItems
     = flat_map (fun item => repeat (Guides.itemId item)
                                    (Guides.boundsTags item)) allItems
  /\ (forall tags i own,
         Guides._removePaperItemsByDataTags
           tags [Guides.mkPaperItem i None own] = []).
Proof.
  repeat split.
  - unfold Guides.removeHitPoint, Guides._removePaperItemsByDataTags.
    rewrite <- flat_map_if. apply flat_map_ext. intros item.
    simpl. apply app_nil_r.
  - unfold Guides.removeAllGuides, Guides._removePaperItemsByTags.
    rewrite <- flat_map_if. apply flat_map_ext. intros item.
    simpl. apply app_nil_r.
  - unfold Guides.removeBoundsPath, Guides._removePaperItemsByDataTags,
      Guides.boundsTags.
    apply flat_map_ext. intros item.
    destruct (Guides.dataTag item "isSelectionBound") eqn:H1,
      (Guides.dataTag item "isRotHandle") eqn:H2,
      (Guides.dataTag item "isScaleHandle") eqn:H3;
      simpl; rewrite H1, H2, H3; reflexivity.
  - intros tags i o.
    unfold Guides._removePaperItemsByDataTags. cbn [flat_map].
    rewrite app_nil_r.
    induction tags as [|t tags IH]; [reflexivity|exact IH].
Qed.

(* ================================================================== *)
(** ** rename in the flyout *)
(* ================================================================== *)

(** X23: for a source block in the flyout [rename] returns, whatever the
    workspace: the accepted name is the raw name without the white space
    around it; when the old name differs from it every block that has
    [renameProcedure] is told, in block order, to replace the old name by
    it, and otherwise no block is told; nothing else is touched. *)
Theorem rename_in_flyout fuel name sourceBlock_ text_ st :
  isInFlyout sourceBlock_ = true ->
  paddingOf name (trim name) /\ trimmed (trim name)
  /\ exists st',
      rename fuel name sourceBlock_ text_ st = Some (st', Ok (trim name))
      /\ renameCalls st'
         = renameCalls st
           ++ (if negb (String.eqb text_ (trim name))
               then renameCallsFor (getAllBlocks (workspace st))
                                   text_ (trim name)
               else [])
      /\ sameButRenameCalls st st'.
Proof.
  intros Hfly. destruct (trim_spec name) as [Hpad Htrim].
  split; [exact Hpad|]. split; [exact Htrim|].
  rewrite rename_unfold. unfold findLegalName. rewrite Hfly.
  rewrite andb_diag.
  destruct (negb (String.eqb text_ (trim name))).
  - destruct (rename_loop_spec text_ (trim name)
                               (getAllBlocks (workspace st)) st)
      as [st' [H1 [H2 H3]]].
    exists st'. rewrite H1. tauto.
  - exists st. rewrite app_nil_r. unfold sameButRenameCalls. tauto.
Qed.

Lemma rename_in_flyout_witness :
  exists st',
    rename 0 " bar " (mkBlock "d" "procedures_defnoreturn" true None None
                              false [])
           "foo" (ex_state ex_wsFooCalled)
    = Some (st', Ok "bar")
    /\ renameCalls st' = [mkRenameCall "call-foo" "foo" "bar"].
Proof.
  destruct (@rename_in_flyout 0 " bar "
              (mkBlock "d" "procedures_defnoreturn" true None None false [])
              "foo" (ex_state ex_wsFooCalled) eq_refl)
    as [_ [_ [st' [H1 [H2 _]]]]].
  exists st'. split; [exact H1|exact H2].
Defined.
